(** * go-tweet-cleaner: the [delete] command

    A shallow embedding of [cmd/delete.go] and [cmd/root.go]: the archive
    reader, the selector (sort, offset, limit), the confirmation gate and
    the rate-limited deletion loop of [runDelete], followed by the
    properties established about them. *)

From Stdlib Require Import ZArith List String Ascii Bool Lia.
From Stdlib Require Import Permutation Sorted.
Import ListNotations.

Local Open Scope string_scope.
Local Open Scope Z_scope.

(** ** Data model *)

(** [TwitterArchiveTweet]: a tweet in the archive JSON format. *)
Record TwitterArchiveTweet : Type := {
  ID : string;
  CreatedAt : string;
  Text : string;
  Retweeted : bool
}.

(** A [time.Time] as the instant it denotes, counted from Go's zero Time
    (January 1, year 1, 00:00:00 UTC).  [Before] and [After] compare
    instants. *)
Definition Time : Type := Z.

Definition zeroTime : Time := 0.

Definition Before (t u : Time) : bool := t <? u.
Definition After (t u : Time) : bool := t >? u.

(** Go's [len] of a slice, as an [int]. *)
Definition len {A : Type} (l : list A) : Z := Z.of_nat (List.length l).

(** ** The library sort

    [sort.Slice] of Go's standard library (package [sort], Go 1.19 and
    later) runs [pdqsort_func], which hands a slice of at most
    [maxInsertion] elements to [insertionSort_func]:

      for i := a + 1; i < b; i++ {
        for j := i; j > a && data.Less(j, j-1); j-- { data.Swap(j, j-1) }
      }

    The prefix already sorted is kept reversed, nearest neighbour first, so
    that [sink] is the inner loop: the new element moves left while it is
    less than the element before it. *)
Module GoSort.
Section Insertion.
Context {A : Type}.
Variable less : A -> A -> bool.

Fixpoint sink (x : A) (rprefix : list A) : list A :=
  match rprefix with
  | [] => [x]
  | y :: rest => if less x y then y :: sink x rest else x :: rprefix
  end.

Definition insertionSort_func (l : list A) : list A :=
  rev (fold_left (fun rprefix x => sink x rprefix) l []).
End Insertion.

Definition maxInsertion : nat := 12.

(** [sort.Slice(x, less)].  On a slice longer than [maxInsertion]
    [pdqsort_func] goes on to its pattern-defeating quicksort, which is the
    parameter [large]; all that is used of it is the contract below. *)
Definition Slice {A : Type} (large : (A -> A -> bool) -> list A -> list A)
    (less : A -> A -> bool) (l : list A) : list A :=
  if (List.length l <=? maxInsertion)%nat then insertionSort_func less l else large less l.

(** What [less] has to be for a sort to make sense: a strict weak order. *)
Record StrictWeak {A : Type} (less : A -> A -> bool) : Prop := {
  sw_irrefl : forall x, less x x = false;
  sw_trans : forall x y z, less x y = true -> less y z = true -> less x z = true;
  sw_cotrans : forall x y z, less x z = true -> less x y = true \/ less y z = true
}.

(** No element is less than one placed before it. *)
Definition Ordered {A : Type} (less : A -> A -> bool) (l : list A) : Prop :=
  StronglySorted (fun x y => less y x = false) l.

(** The reversed prefix of the insertion sort is in order when read
    backwards. *)
Definition Descending {A : Type} (less : A -> A -> bool) (l : list A) : Prop :=
  StronglySorted (fun x y => less x y = false) l.

(** The documented contract of the library sort: the elements are
    rearranged, and the result is in order for [less].  Nothing is promised
    about elements that compare equal. *)
Definition Contract {A : Type} (srt : (A -> A -> bool) -> list A -> list A) : Prop :=
  forall less l, StrictWeak less ->
    Permutation l (srt less l) /\ Ordered less (srt less l).
End GoSort.

(** ** Strings *)

(** [strings.HasSuffix]. *)
Definition HasSuffix (s suffix : string) : bool :=
  let n := String.length s in
  let k := String.length suffix in
  ((k <=? n)%nat && (substring (n - k) k s =? suffix)%string)%bool.

(** [bytes.SplitN(content, sep, 2)]: the second part, when there are two;
    [None] when [sep] does not occur and the result has a single part. *)
Fixpoint SplitN2 (sep s : string) : option string :=
  if prefix sep s
  then Some (substring (String.length sep) (String.length s - String.length sep) s)
  else match s with
       | EmptyString => None
       | String _ rest => SplitN2 sep rest
       end.

(** [filepath.Join] on path elements that are already clean. *)
Definition Join (elems : list string) : string := String.concat "/" elems.

(** [strings.ToLower] and [strings.TrimSpace] as they act on an ASCII
    string: the letters [A] to [Z] are lowered, and tab, line feed, vertical
    tab, form feed, carriage return and space are trimmed.  On a string with
    a non-ASCII byte the library also lowers non-ASCII letters and trims
    Unicode white space (U+0085, U+00A0, ...), which these definitions do
    not do: what is proved about the answer at the prompt is stated for an
    ASCII line. *)
Definition lowerAscii (c : ascii) : ascii :=
  let n := nat_of_ascii c in
  if ((65 <=? n) && (n <=? 90))%nat then ascii_of_nat (n + 32) else c.

Fixpoint ToLower (s : string) : string :=
  match s with
  | EmptyString => EmptyString
  | String c rest => String (lowerAscii c) (ToLower rest)
  end.

Definition isSpace (c : ascii) : bool :=
  let n := nat_of_ascii c in
  (((9 <=? n) && (n <=? 13)) || (n =? 32))%nat.

Fixpoint trimLeft (s : string) : string :=
  match s with
  | EmptyString => EmptyString
  | String c rest => if isSpace c then trimLeft rest else s
  end.

Fixpoint trimRight (s : string) : string :=
  match s with
  | EmptyString => EmptyString
  | String c rest =>
      match trimRight rest with
      | EmptyString => if isSpace c then EmptyString else String c EmptyString
      | kept => String c kept
      end
  end.

Definition TrimSpace (s : string) : string := trimRight (trimLeft s).

(** ** The environment of a run *)

(** The command-line flags.  [limit] and the four credentials are declared
    in [cmd/root.go], [archivePath], [dryRun] and [sortOrder] in
    [cmd/delete.go]; [offset] is read by [runDelete] as a package-level
    [int] like [limit]. *)
Record Flags : Type := {
  consumerKey : string;
  consumerSecret : string;
  accessToken : string;
  accessTokenSecret : string;
  limit : Z;
  offset : Z;
  archivePath : string;
  dryRun : bool;
  sortOrder : string
}.

(** The result of [os.Stat]: the [IsDir] of the file info, the error that
    [os.IsNotExist] recognises, or another error. *)
Inductive StatResult : Type :=
| StatOk (isDir : bool)
| StatNotExist
| StatError.

Record DirEntry : Type := { Name : string; IsDir : bool }.

Inductive Method : Type := GET | DELETE.

(** What [client.Do] followed by [ioutil.ReadAll] of the body gives. *)
Inductive HttpResult : Type :=
| DoError
| Response (StatusCode : Z) (bodyRead : bool).

(** What the deletion loop writes to the console. *)
Inductive Message : Type :=
| MsgRateLimitReached
| MsgErrorChecking (id : string)
| MsgErrorReadingResponse (id : string)
| MsgCheckResponse (id : string) (status : Z)
| MsgAlreadyDeleted (id : string)
| MsgErrorCreatingRequest (id : string)
| MsgErrorDeleting (id : string)
| MsgFailedToDelete (id : string) (status : Z)
| MsgRateLimitExceeded
| MsgDeleted (n total : Z) (id : string)
| MsgCompleted (n total failed gone : Z)
| MsgFailureNotes
| MsgAccessWarning.

(** What the deletion loop does that can be observed from outside. *)
Inductive Event : Type :=
| Print (m : Message)
| Sleep (d : Z)
| Do (m : Method) (url : string).

(** The world around the process.  [client_Do] answers a request from the
    history of the run so far, so that the remote service may change its
    answers as the run proceeds. *)
Record World : Type := {
  os_Stat : string -> StatResult;
  ioutil_ReadDir : string -> option (list DirEntry);
  ioutil_ReadFile : string -> option string;
  stdin_ReadString : string;
  http_NewRequest : Method -> string -> bool;
  client_Do : list Event -> Method -> string -> HttpResult
}.

(** [time.Duration] values, in nanoseconds. *)
Definition Millisecond : Z := 1000000.
Definition Minute : Z := 60 * 1000 * Millisecond.

Definition rateLimit : Z := 50.
Definition rateLimitWindow : Z := 15 * Minute.

(** The three counters of the deletion loop and its observable history. *)
Record ExecState : Type := {
  success : Z;
  failures : Z;
  alreadyDeleted : Z;
  trace : list Event
}.

Definition initState : ExecState :=
  {| success := 0; failures := 0; alreadyDeleted := 0; trace := [] |}.

Definition emit (es : list Event) (st : ExecState) : ExecState :=
  {| success := success st; failures := failures st;
     alreadyDeleted := alreadyDeleted st; trace := (trace st ++ es)%list |}.

Definition incSuccess (st : ExecState) : ExecState :=
  {| success := success st + 1; failures := failures st;
     alreadyDeleted := alreadyDeleted st; trace := trace st |}.

Definition incFailures (st : ExecState) : ExecState :=
  {| success := success st; failures := failures st + 1;
     alreadyDeleted := alreadyDeleted st; trace := trace st |}.

Definition incAlreadyDeleted (st : ExecState) : ExecState :=
  {| success := success st; failures := failures st;
     alreadyDeleted := alreadyDeleted st + 1; trace := trace st |}.

(** How a run of [runDelete] ends: one constructor for each [return] of
    the function, in the order of the source, [ExitNilFileInfo] for the
    [archiveInfo.IsDir()] on the nil file info that [os.Stat] returns with
    an error other than "does not exist", and [ExitCompleted] for the end
    of the function. *)
Inductive Exit : Type :=
| ExitMissingCredentials
| ExitArchiveNotExist
| ExitNilFileInfo
| ExitArchiveNotDir
| ExitNoTweetFiles
| ExitNoTweets
| ExitOffsetTooLarge
| ExitCancelled
| ExitDryRun
| ExitCompleted.

(** One line of the listing shown before the confirmation.  The date
    column is [createdAt.Format("2006/01/02 15:04:05")] of the parsed
    [CreatedAt], the wall clock in the timestamp's own UTC offset, and it is
    the date of the zero Time when [CreatedAt] does not parse: [lineDate]
    keeps the timestamp text that the column renders, or [None] when it
    does not parse. *)
Record Line : Type := {
  lineNo : Z;
  lineDate : option string;
  lineText : string;
  lineID : string
}.

(** What a run leaves behind: how it ended, the listing it showed, and the
    counters and history of the deletion loop. *)
Record Outcome : Type := {
  exit : Exit;
  displayed : list Line;
  exec : ExecState
}.

(** ** [runDelete] *)

Section RunDelete.

(** [time.Parse("Mon Jan 02 15:04:05 -0700 2006", s)]: the instant, or
    [None] for an error. *)
Variable time_Parse : string -> option Time.

(** [json.Unmarshal] into the slice of [{"tweet": ...}] wrappers, with the
    tweets taken out of the wrappers; [None] for an error. *)
Variable json_Unmarshal : string -> option (list TwitterArchiveTweet).

(** The path [sort.Slice] takes on slices longer than [GoSort.maxInsertion]. *)
Variable pdqsort : (TwitterArchiveTweet -> TwitterArchiveTweet -> bool) ->
                   list TwitterArchiveTweet -> list TwitterArchiveTweet.

(** [timeI, _ := time.Parse(layout, tweet.CreatedAt)]: the error is dropped,
    and with an error [time.Parse] returns the zero Time. *)
Definition createdTime (t : TwitterArchiveTweet) : Time :=
  match time_Parse (CreatedAt t) with
  | Some i => i
  | None => zeroTime
  end.

(** *** Archive reader *)

Definition statOk (w : World) (path : string) : bool :=
  match os_Stat w path with
  | StatOk _ => true
  | _ => false
  end.

Definition tweetsFile (root : string) : string := Join [root; "data"; "tweets.js"].
Definition tweetDataDir (root : string) : string := Join [root; "data"; "tweets"].
Definition oldFormatFile (root : string) : string := Join [root; "data"; "tweet.js"].

(** [data/tweets.js], the current format. *)
Definition currentFormatFiles (w : World) (root : string) : list string :=
  if statOk w (tweetsFile root) then [tweetsFile root] else [].

(** The [.js] files of the [data/tweets] directory, the newer format. *)
Definition dataDirFiles (w : World) (root : string) : list string :=
  if statOk w (tweetDataDir root) then
    match ioutil_ReadDir w (tweetDataDir root) with
    | Some files =>
        map (fun file => Join [tweetDataDir root; Name file])
            (filter (fun file => negb (IsDir file) && HasSuffix (Name file) ".js") files)
    | None => []
    end
  else [].

Definition findTweetFiles (w : World) (root : string) : list string :=
  let tweetFiles := (currentFormatFiles w root ++ dataDirFiles w root)%list in
  if len tweetFiles =? 0 then
    if statOk w (oldFormatFile root) then (tweetFiles ++ [oldFormatFile root])%list
    else tweetFiles
  else tweetFiles.

(** The JSON text of a data file: what follows the first ["= "] when the
    file starts with ["window."]; [None] when there is no ["= "]. *)
Definition jsonContent (content : string) : option string :=
  if prefix "window." content then SplitN2 "= " content else Some content.

(** The tweets one data file adds; a file that fails to read or to parse is
    skipped. *)
Definition readTweetFile (w : World) (file : string) : list TwitterArchiveTweet :=
  match ioutil_ReadFile w file with
  | None => []
  | Some content =>
      match jsonContent content with
      | None => []
      | Some js =>
          match json_Unmarshal js with
          | None => []
          | Some tweetData => tweetData
          end
      end
  end.

Definition readTweets (w : World) (tweetFiles : list string) : list TwitterArchiveTweet :=
  flat_map (readTweetFile w) tweetFiles.

(** *** Selector *)

Definition lessOldest (a b : TwitterArchiveTweet) : bool :=
  Before (createdTime a) (createdTime b).

Definition lessNewest (a b : TwitterArchiveTweet) : bool :=
  After (createdTime a) (createdTime b).

Definition sortTweets (order : string) (tweets : list TwitterArchiveTweet)
    : list TwitterArchiveTweet :=
  if (order =? "oldest")%string then GoSort.Slice pdqsort lessOldest tweets
  else if (order =? "newest")%string then GoSort.Slice pdqsort lessNewest tweets
  else tweets.

(** The offset and limit stage; [None] is the return after
    "Offset %d is greater than the number of tweets". *)
Definition applyOffsetLimit (limit offset : Z) (tweets : list TwitterArchiveTweet)
    : option (list TwitterArchiveTweet) :=
  if limit >? 0 then
    let skipped :=
      if offset >? 0 then
        if offset >=? len tweets then None
        else Some (skipn (Z.to_nat offset) tweets)
      else Some tweets in
    match skipped with
    | None => None
    | Some tweets =>
        if len tweets >? limit then Some (firstn (Z.to_nat limit) tweets)
        else Some tweets
    end
  else Some tweets.

(** *** Listing *)

Definition truncateText (text : string) : string :=
  if (50 <? String.length text)%nat then (substring 0 47 text ++ "...")%string else text.

Fixpoint displayFrom (i : Z) (tweets : list TwitterArchiveTweet) : list Line :=
  match tweets with
  | [] => []
  | tweet :: rest =>
      {| lineNo := i + 1;
         lineDate := match time_Parse (CreatedAt tweet) with
                     | Some _ => Some (CreatedAt tweet)
                     | None => None
                     end;
         lineText := truncateText (Text tweet); lineID := ID tweet |}
      :: displayFrom (i + 1) rest
  end.

Definition display (tweets : list TwitterArchiveTweet) : list Line :=
  displayFrom 0 tweets.

(** *** Deletion *)

Definition tweetURL (tweetID : string) : string :=
  ("https://api.twitter.com/2/tweets/" ++ tweetID)%string.

(** [checkTweetExists]: whether the tweet still exists, together with the
    state after the request and its console lines. *)
Definition checkTweetExists (w : World) (tweetID : string) (st : ExecState)
    : bool * ExecState :=
  let url := tweetURL tweetID in
  if negb (http_NewRequest w GET url) then (false, st)
  else
    let resp := client_Do w (trace st) GET url in
    let st := emit [Do GET url] st in
    match resp with
    | DoError => (false, emit [Print (MsgErrorChecking tweetID)] st)
    | Response _ false => (false, emit [Print (MsgErrorReadingResponse tweetID)] st)
    | Response status true =>
        (status =? 200, emit [Print (MsgCheckResponse tweetID status)] st)
    end.

(** The pause at the head of the loop body. *)
Definition rateLimitPause (i : Z) (st : ExecState) : ExecState :=
  if (i >? 0) && (Z.rem i rateLimit =? 0)
  then emit [Print MsgRateLimitReached; Sleep rateLimitWindow] st
  else st.

(** The loop body after the existence check said the tweet exists: the
    delete request and what follows it. *)
Definition deleteTweet (w : World) (total : Z) (tweet : TwitterArchiveTweet)
    (st : ExecState) : ExecState :=
  let url := tweetURL (ID tweet) in
  if negb (http_NewRequest w DELETE url)
  then incFailures (emit [Print (MsgErrorCreatingRequest (ID tweet))] st)
  else
    let resp := client_Do w (trace st) DELETE url in
    let st := emit [Do DELETE url] st in
    match resp with
    | DoError => incFailures (emit [Print (MsgErrorDeleting (ID tweet))] st)
    | Response status _ =>
        let st :=
          if negb (status =? 200) then
            let st := emit [Print (MsgFailedToDelete (ID tweet) status)] st in
            let st :=
              if status =? 429
              then emit [Print MsgRateLimitExceeded; Sleep (15 * Minute)] st
              else st in
            incFailures st
          else
            let st := incSuccess st in
            emit [Print (MsgDeleted (success st) total (ID tweet))] st in
        emit [Sleep (200 * Millisecond)] st
    end.

(** One iteration of [for i, tweet := range tweets]. *)
Definition loopBody (w : World) (total : Z) (i : Z) (tweet : TwitterArchiveTweet)
    (st : ExecState) : ExecState :=
  let st := rateLimitPause i st in
  let (present, st) := checkTweetExists w (ID tweet) st in
  if negb present
  then incAlreadyDeleted (emit [Print (MsgAlreadyDeleted (ID tweet))] st)
  else deleteTweet w total tweet st.

Fixpoint deleteLoop (w : World) (total : Z) (i : Z) (tweets : list TwitterArchiveTweet)
    (st : ExecState) : ExecState :=
  match tweets with
  | [] => st
  | tweet :: rest => deleteLoop w total (i + 1) rest (loopBody w total i tweet st)
  end.

(** The summary printed after the loop. *)
Definition printSummary (total : Z) (st : ExecState) : ExecState :=
  let st := emit [Print (MsgCompleted (success st) total (failures st) (alreadyDeleted st))] st in
  let st := if failures st >? 0 then emit [Print MsgFailureNotes] st else st in
  if (success st =? 0) && (failures st >? 0) then emit [Print MsgAccessWarning] st else st.

(** The deletion executor: the loop over the confirmed tweets, from the
    three counters at zero, and the summary. *)
Definition executeDeletion (w : World) (tweets : list TwitterArchiveTweet) : ExecState :=
  printSummary (len tweets) (deleteLoop w (len tweets) 0 tweets initState).

(** *** The whole command *)

Definition stop (e : Exit) : Outcome :=
  {| exit := e; displayed := []; exec := initState |}.

(** The checks on the flags and the archive reader: the tweets extracted
    from the archive, or the early return. *)
Definition loadTweets (f : Flags) (w : World) : Exit + list TwitterArchiveTweet :=
  if ((consumerKey f =? "")%string || (consumerSecret f =? "")%string
      || (accessToken f =? "")%string || (accessTokenSecret f =? "")%string)%bool
  then inl ExitMissingCredentials
  else
    match os_Stat w (archivePath f) with
    | StatNotExist => inl ExitArchiveNotExist
    | StatError => inl ExitNilFileInfo
    | StatOk false => inl ExitArchiveNotDir
    | StatOk true =>
        let tweetFiles := findTweetFiles w (archivePath f) in
        if len tweetFiles =? 0 then inl ExitNoTweetFiles
        else
          let tweets := readTweets w tweetFiles in
          if len tweets =? 0 then inl ExitNoTweets
          else inr tweets
    end.

(** The reader followed by the selector: the tweets that reach the
    listing, or the early return. *)
Definition selectTweets (f : Flags) (w : World) : Exit + list TwitterArchiveTweet :=
  match loadTweets f w with
  | inl e => inl e
  | inr tweets =>
      let tweets := sortTweets (sortOrder f) tweets in
      match applyOffsetLimit (limit f) (offset f) tweets with
      | None => inl ExitOffsetTooLarge
      | Some tweets => inr tweets
      end
  end.

(** The answer typed at the prompt is a yes. *)
Definition confirmed (w : World) : bool :=
  (TrimSpace (ToLower (stdin_ReadString w)) =? "y")%string.

Definition runDelete (f : Flags) (w : World) : Outcome :=
  match selectTweets f w with
  | inl e => stop e
  | inr tweets =>
      if negb (dryRun f) then
        if negb (confirmed w)
        then {| exit := ExitCancelled; displayed := display tweets; exec := initState |}
        else {| exit := ExitCompleted; displayed := display tweets;
                exec := executeDeletion w tweets |}
      else {| exit := ExitDryRun; displayed := display tweets; exec := initState |}
  end.

End RunDelete.

(** ** Reading a history *)

(** What a step added to the history. *)
Definition newEvents (before after : ExecState) : list Event :=
  skipn (List.length (trace before)) (trace after).

Definition isRateLimitReached (e : Event) : bool :=
  match e with
  | Print MsgRateLimitReached => true
  | _ => false
  end.

Definition isSleep (e : Event) : bool :=
  match e with
  | Sleep _ => true
  | _ => false
  end.

Definition isDeleteCall (e : Event) : bool :=
  match e with
  | Do DELETE _ => true
  | _ => false
  end.

Definition isCall (e : Event) : bool :=
  match e with
  | Do _ _ => true
  | _ => false
  end.

(** [output] keeps the records of [input] that have the same parsed
    timestamp in the order they have in [input]: what a stable sort does. *)
Definition keepsTies (time_Parse : string -> option Time)
    (input output : list TwitterArchiveTweet) : Prop :=
  forall t : Time,
    filter (fun a => createdTime time_Parse a =? t) output =
    filter (fun a => createdTime time_Parse a =? t) input.


(** The loop index [i] (from zero) is one before which the rate limit is due. *)
Definition pauseDue (i : nat) : bool := ((0 <? i) && (i mod 50 =? 0))%nat.

(** ** Concrete archives and services

    The inputs on which the properties below are exercised. *)
Module Sample.

Definition jan2021 : string := "Fri Jan 01 00:00:00 +0000 2021".
Definition jun2021 : string := "Tue Jun 01 00:00:00 +0000 2021".
Definition jan2020 : string := "Wed Jan 01 00:00:00 +0000 2020".

(** [time.Parse] on the three timestamps above, in seconds from the zero
    Time; the other strings used below ("yesterday") do not parse. *)
Definition parseTable (s : string) : option Time :=
  if (s =? jan2021)%string then Some 63745056000
  else if (s =? jun2021)%string then Some 63758102400
  else if (s =? jan2020)%string then Some 63713433600
  else None.

Definition tweet (id created : string) : TwitterArchiveTweet :=
  {| ID := id; CreatedAt := created; Text := "hello"; Retweeted := false |}.

Definition tJan21 : TwitterArchiveTweet := tweet "1001" jan2021.
Definition tJun21 : TwitterArchiveTweet := tweet "1002" jun2021.
Definition tJan20 : TwitterArchiveTweet := tweet "1003" jan2020.
Definition tJan21b : TwitterArchiveTweet := tweet "1004" jan2021.
Definition tBad : TwitterArchiveTweet := tweet "1005" "yesterday".

(** A timestamp of the year 0000, which [time.Parse] accepts: the instant
    lies one leap year (366 days) before the zero Time. *)
Definition jan0000 : string := "Sat Jan 01 00:00:00 +0000 0000".

Definition parseEarly (s : string) : option Time :=
  if (s =? jan0000)%string then Some (-31622400) else parseTable s.

Definition tYear0 : TwitterArchiveTweet := tweet "1006" jan0000.

(** Thirteen tweets: two of June 2021, then eleven written in the same
    second of January 2021. *)
Definition laterFirst : list TwitterArchiveTweet :=
  tweet "1" jun2021 :: tweet "2" jun2021
  :: map (fun id => tweet id jan2021)
         ["3"; "4"; "5"; "6"; "7"; "8"; "9"; "10"; "11"; "12"; "13"].

(** Thirteen tweets: two of January 2020, then the same eleven. *)
Definition earlierFirst : list TwitterArchiveTweet :=
  tweet "1" jan2020 :: tweet "2" jan2020
  :: map (fun id => tweet id jan2021)
         ["3"; "4"; "5"; "6"; "7"; "8"; "9"; "10"; "11"; "12"; "13"].

(** A hundred and fifty tweets. *)
Definition manyTweets : list TwitterArchiveTweet := repeat tJan21 150.

(** [json.Unmarshal] on the data files of the sample archives. *)
Definition unmarshalTable (js : string) : option (list TwitterArchiveTweet) :=
  if (js =? "[three tweets]")%string then Some [tJan21; tJun21; tJan20]
  else if (js =? "[one tweet]")%string then Some [tJan21b]
  else if (js =? "[150 tweets]")%string then Some manyTweets
  else None.

(** A sort that meets the contract of [sort.Slice] and starts as the
    quicksort of the library does: it exchanges the first element with the
    pivot, the element at index [length / 4 * 2], and then puts the slice in
    order. *)
Definition pivotToFront {A : Type} (l : list A) : list A :=
  match l with
  | [] => []
  | x :: rest =>
      match (List.length l / 4 * 2)%nat with
      | O => l
      | S j =>
          match nth_error rest j with
          | Some p => p :: firstn j rest ++ x :: skipn (S j) rest
          | None => l
          end
      end
  end.

Definition pivotFirstSort {A : Type} (less : A -> A -> bool) (l : list A) : list A :=
  GoSort.insertionSort_func less (pivotToFront l).

(** An archive directory whose files are given by [files] (path and
    content) and whose [data/tweets] directory, when [shards] is not empty,
    lists [shards]; a service that answers every request with [answer]. *)
Definition lookup (files : list (string * string)) (path : string) : option string :=
  match find (fun entry => (fst entry =? path)%string) files with
  | Some entry => Some (snd entry)
  | None => None
  end.

Definition world (files : list (string * string)) (shards : list DirEntry)
    (typed : string) (answer : Method -> HttpResult) : World :=
  {| os_Stat := fun path =>
       if (path =? "archive")%string then StatOk true
       else if ((path =? "archive/data/tweets")%string && negb (len shards =? 0))%bool
       then StatOk true
       else match lookup files path with
            | Some _ => StatOk false
            | None => StatNotExist
            end;
     ioutil_ReadDir := fun path =>
       if (path =? "archive/data/tweets")%string then Some shards else None;
     ioutil_ReadFile := lookup files;
     stdin_ReadString := typed;
     http_NewRequest := fun _ _ => true;
     client_Do := fun _ m _ => answer m |}.

Definition flags (lim off : Z) (dry : bool) (order : string) : Flags :=
  {| consumerKey := "ck"; consumerSecret := "cs";
     accessToken := "at"; accessTokenSecret := "ats";
     limit := lim; offset := off;
     archivePath := "archive"; dryRun := dry; sortOrder := order |}.

(** An archive in the current format with three tweets. *)
Definition threeTweetArchive : list (string * string) :=
  [("archive/data/tweets.js", "window.YTD.tweets.part0 = [three tweets]")].

(** An archive that has both [data/tweets.js] and a [data/tweets]
    directory with one [.js] file. *)
Definition bothFormatsArchive : list (string * string) :=
  [("archive/data/tweets.js", "window.YTD.tweets.part0 = [three tweets]");
   ("archive/data/tweets/part1.js", "window.YTD.tweets.part1 = [one tweet]")].

Definition part1 : DirEntry := {| Name := "part1.js"; IsDir := false |}.

(** An archive of a hundred and fifty tweets. *)
Definition bigArchive : list (string * string) :=
  [("archive/data/tweets.js", "[150 tweets]")].

Definition ok (m : Method) : HttpResult := Response 200 true.

(** A service whose read endpoint answers 500 and whose delete endpoint
    answers 200. *)
Definition readFails (m : Method) : HttpResult :=
  match m with
  | GET => Response 500 true
  | DELETE => Response 200 true
  end.

(** A service whose read endpoint answers 200 and whose delete endpoint
    answers 429, "too many requests". *)
Definition throttled (m : Method) : HttpResult :=
  match m with
  | GET => Response 200 true
  | DELETE => Response 429 true
  end.

End Sample.

(** ** More vocabulary for the properties *)

(** The URLs of the read requests and of the delete requests of a history,
    in the order they were sent. *)
Definition getCalls (tr : list Event) : list string :=
  flat_map (fun e => match e with Do GET url => [url] | _ => [] end) tr.

Definition deleteCalls (tr : list Event) : list string :=
  flat_map (fun e => match e with Do DELETE url => [url] | _ => [] end) tr.

(** [l1] is [l2] with some elements left out. *)
Inductive Subsequence {A : Type} : list A -> list A -> Prop :=
| SubNil : Subsequence [] []
| SubSkip (x : A) (l1 l2 : list A) : Subsequence l1 l2 -> Subsequence l1 (x :: l2)
| SubKeep (x : A) (l1 l2 : list A) : Subsequence l1 l2 -> Subsequence (x :: l1) (x :: l2).

(** The URL of the read and of the delete request for a tweet. *)
Definition urlOf (tweet : TwitterArchiveTweet) : string := tweetURL (ID tweet).

(** The flags with the dry-run switch set to [b]. *)
Definition setDryRun (b : bool) (f : Flags) : Flags :=
  {| consumerKey := consumerKey f; consumerSecret := consumerSecret f;
     accessToken := accessToken f; accessTokenSecret := accessTokenSecret f;
     limit := limit f; offset := offset f;
     archivePath := archivePath f; dryRun := b; sortOrder := sortOrder f |}.

(** Every character of [s] is ASCII white space. *)
Fixpoint allSpace (s : string) : bool :=
  match s with
  | EmptyString => true
  | String c rest => isSpace c && allSpace rest
  end.

(** Every character of [s] is an ASCII character. *)
Fixpoint allAscii (s : string) : bool :=
  match s with
  | EmptyString => true
  | String c rest => (nat_of_ascii c <? 128)%nat && allAscii rest
  end.

(** The character [c] occurs in [s]. *)
Fixpoint occurs (c : ascii) (s : string) : bool :=
  match s with
  | EmptyString => false
  | String d rest => (Ascii.eqb c d) || occurs c rest
  end.

(** The relation between the delete requests, the read requests and the
    counters that every iteration keeps. *)
Definition callsAccounted (st : ExecState) : Prop :=
  Subsequence (deleteCalls (trace st)) (getCalls (trace st)) /\
  success st <= len (deleteCalls (trace st)) /\
  len (deleteCalls (trace st)) <= success st + failures st.

(** The event is one of the lines of the final summary. *)
Definition isSummaryLine (e : Event) : bool :=
  match e with
  | Print (MsgCompleted _ _ _ _) => true
  | Print MsgFailureNotes => true
  | Print MsgAccessWarning => true
  | _ => false
  end.

(** One of the four credentials is empty. *)
Definition credentialMissing (f : Flags) : bool :=
  ((consumerKey f =? "")%string || (consumerSecret f =? "")%string
   || (accessToken f =? "")%string || (accessTokenSecret f =? "")%string)%bool.

(** Case analysis on every [match] and [if] of the goal. *)
Ltac split_cases :=
  repeat match goal with
         | |- context [match ?x with _ => _ end] => destruct x eqn:?
         end.

(** * Properties *)

(** ** The library sort *)

Section SortFacts.
Context {A : Type}.
Variable less : A -> A -> bool.

Lemma sink_Permutation (x : A) (rprefix : list A) :
  Permutation (x :: rprefix) (GoSort.sink less x rprefix).
Proof.
  induction rprefix as [|y rest IH]; simpl.
  - apply Permutation_refl.
  - destruct (less x y).
    + eapply Permutation_trans; [apply perm_swap|].
      apply perm_skip, IH.
    + apply Permutation_refl.
Qed.

Lemma sink_all_Permutation (l acc : list A) :
  Permutation (rev l ++ acc)
              (fold_left (fun rprefix x => GoSort.sink less x rprefix) l acc).
Proof.
  revert acc.
  induction l as [|x l IH]; intro acc; simpl.
  - apply Permutation_refl.
  - eapply Permutation_trans; [|apply IH].
    rewrite <- app_assoc. simpl.
    apply Permutation_app_head, sink_Permutation.
Qed.

Lemma insertionSort_func_Permutation (l : list A) :
  Permutation l (GoSort.insertionSort_func less l).
Proof.
  unfold GoSort.insertionSort_func.
  eapply Permutation_trans; [|apply Permutation_rev].
  eapply Permutation_trans; [|apply sink_all_Permutation].
  rewrite app_nil_r. apply Permutation_rev.
Qed.

Hypothesis order : GoSort.StrictWeak less.

Lemma sink_Descending (x : A) (rprefix : list A) :
  GoSort.Descending less rprefix -> GoSort.Descending less (GoSort.sink less x rprefix).
Proof.
  unfold GoSort.Descending.
  induction rprefix as [|y rest IH]; intro H; simpl.
  - constructor; [constructor | constructor].
  - inversion H as [|? ? Hrest Hy]; subst.
    destruct (less x y) eqn:Hxy.
    + constructor; [apply IH, Hrest|].
      eapply Permutation_Forall; [apply sink_Permutation|].
      constructor; [|exact Hy].
      destruct (less y x) eqn:Hyx; [|reflexivity].
      rewrite <- (GoSort.sw_irrefl less order x).
      symmetry. eapply GoSort.sw_trans; eauto.
    + constructor; [exact H|].
      constructor; [exact Hxy|].
      rewrite Forall_forall in *. intros z Hz.
      destruct (less x z) eqn:Hxz; [|reflexivity].
      destruct (GoSort.sw_cotrans less order x y z Hxz) as [K|K].
      * congruence.
      * rewrite (Hy z Hz) in K. discriminate.
Qed.

Lemma sink_all_Descending (l acc : list A) :
  GoSort.Descending less acc ->
  GoSort.Descending less (fold_left (fun rprefix x => GoSort.sink less x rprefix) l acc).
Proof.
  revert acc.
  induction l as [|x l IH]; intros acc H; simpl; [exact H|].
  apply IH, sink_Descending, H.
Qed.
End SortFacts.

Lemma StronglySorted_app_intro {A : Type} (R : A -> A -> Prop) (l1 l2 : list A) :
  StronglySorted R l1 -> StronglySorted R l2 ->
  (forall x y, In x l1 -> In y l2 -> R x y) ->
  StronglySorted R (l1 ++ l2).
Proof.
  induction l1 as [|a l1 IH]; intros H1 H2 H12; simpl; [exact H2|].
  inversion H1 as [|? ? Hs Hf]; subst.
  constructor.
  - apply IH; auto. intros x y Hx Hy. apply H12; [right|]; assumption.
  - apply Forall_app. split; [exact Hf|].
    rewrite Forall_forall. intros y Hy. apply H12; [left; reflexivity | exact Hy].
Qed.

Lemma StronglySorted_app_elim {A : Type} (R : A -> A -> Prop) (l1 l2 : list A) :
  StronglySorted R (l1 ++ l2) ->
  StronglySorted R l1 /\ StronglySorted R l2 /\
  (forall x y, In x l1 -> In y l2 -> R x y).
Proof.
  induction l1 as [|a l1 IH]; simpl; intro H.
  - repeat split; [constructor | exact H | intros x y []].
  - inversion H as [|? ? Hs Hf]; subst.
    destruct (IH Hs) as (S1 & S2 & S12).
    apply Forall_app in Hf. destruct Hf as [Hf1 Hf2].
    repeat split.
    + constructor; assumption.
    + exact S2.
    + intros x y [<-|Hx] Hy.
      * rewrite Forall_forall in Hf2. apply Hf2, Hy.
      * apply S12; assumption.
Qed.

Lemma StronglySorted_rev {A : Type} (R : A -> A -> Prop) (l : list A) :
  StronglySorted R l -> StronglySorted (fun x y => R y x) (rev l).
Proof.
  induction l as [|a l IH]; intro H; simpl; [constructor|].
  inversion H as [|? ? Hs Hf]; subst.
  apply StronglySorted_app_intro.
  - apply IH, Hs.
  - constructor; [constructor | constructor].
  - intros x y Hx [<-|[]].
    rewrite Forall_forall in Hf. apply Hf. apply in_rev. exact Hx.
Qed.

Lemma StronglySorted_weaken {A : Type} (R S : A -> A -> Prop) (l : list A) :
  (forall x y, In x l -> In y l -> R x y -> S x y) ->
  StronglySorted R l -> StronglySorted S l.
Proof.
  induction l as [|a l IH]; intros HRS H; [constructor|].
  inversion H as [|? ? Hs Hf]; subst.
  constructor.
  - apply IH; [|exact Hs]. intros x y Hx Hy. apply HRS; right; assumption.
  - rewrite Forall_forall in *. intros y Hy.
    apply HRS; [left; reflexivity | right; exact Hy | apply Hf, Hy].
Qed.

Lemma insertionSort_func_Ordered {A : Type} (less : A -> A -> bool) (l : list A) :
  GoSort.StrictWeak less -> GoSort.Ordered less (GoSort.insertionSort_func less l).
Proof.
  intro order. unfold GoSort.Ordered, GoSort.insertionSort_func.
  apply (StronglySorted_rev (fun x y => less x y = false)).
  apply sink_all_Descending; [exact order | constructor].
Qed.

Lemma insertionSort_func_Contract {A : Type} : GoSort.Contract (@GoSort.insertionSort_func A).
Proof.
  intros less l order. split.
  - apply insertionSort_func_Permutation.
  - apply insertionSort_func_Ordered, order.
Qed.

Lemma pivotToFront_Permutation {A : Type} (l : list A) :
  Permutation l (Sample.pivotToFront l).
Proof.
  unfold Sample.pivotToFront.
  destruct l as [|x rest]; [constructor|].
  destruct (List.length (x :: rest) / 4 * 2)%nat as [|j]; [apply Permutation_refl|].
  destruct (nth_error rest j) as [p|] eqn:E; [|apply Permutation_refl].
  destruct (nth_error_split rest j E) as (l1 & l2 & -> & <-).
  rewrite firstn_app, firstn_all, Nat.sub_diag, firstn_O, app_nil_r.
  replace (S (List.length l1)) with (List.length l1 + 1)%nat by lia.
  rewrite skipn_app, skipn_all2 by lia.
  replace (List.length l1 + 1 - List.length l1)%nat with 1%nat by lia.
  simpl.
  eapply Permutation_trans; [apply perm_skip, Permutation_sym, Permutation_middle|].
  eapply Permutation_trans; [apply perm_swap|].
  apply perm_skip, Permutation_middle.
Qed.

Lemma pivotFirstSort_Contract {A : Type} : GoSort.Contract (@Sample.pivotFirstSort A).
Proof.
  intros less l order. unfold Sample.pivotFirstSort. split.
  - eapply Permutation_trans; [apply pivotToFront_Permutation|].
    apply insertionSort_func_Permutation.
  - apply insertionSort_func_Ordered, order.
Qed.

Lemma Slice_Contract {A : Type} (large : (A -> A -> bool) -> list A -> list A) :
  GoSort.Contract large -> GoSort.Contract (GoSort.Slice large).
Proof.
  intros H less l order. unfold GoSort.Slice.
  destruct (List.length l <=? GoSort.maxInsertion)%nat.
  - apply insertionSort_func_Contract, order.
  - apply H, order.
Qed.

(** ** The deletion loop *)

Lemma newEvents_emit (st : ExecState) (es : list Event) :
  newEvents st (emit es st) = es.
Proof.
  unfold newEvents, emit. simpl.
  rewrite skipn_app, skipn_all, Nat.sub_diag. reflexivity.
Qed.

Lemma newEvents_app (st st' : ExecState) (es : list Event) :
  trace st' = (trace st ++ es)%list -> newEvents st st' = es.
Proof.
  intro H. unfold newEvents. rewrite H.
  rewrite skipn_app, skipn_all, Nat.sub_diag. reflexivity.
Qed.

(** The existence check leaves the counters alone and adds a request and
    console lines only. *)
Lemma checkTweetExists_frame (w : World) (id : string) (st : ExecState) :
  let st' := snd (checkTweetExists w id st) in
  success st' = success st /\ failures st' = failures st /\
  alreadyDeleted st' = alreadyDeleted st /\
  exists es, trace st' = (trace st ++ es)%list /\
             Forall (fun e => isSleep e = false) es /\
             Forall (fun e => isDeleteCall e = false) es /\
             Forall (fun e => isRateLimitReached e = false) es.
Proof.
  unfold checkTweetExists. split_cases; simpl; repeat split;
    try (exists []; rewrite app_nil_r; repeat split; constructor);
    eexists; rewrite <- app_assoc; simpl;
    (split; [reflexivity|]); repeat split; repeat constructor.
Qed.

Lemma checkTweetExists_true (w : World) (id : string) (st : ExecState) :
  fst (checkTweetExists w id st) = true <->
  http_NewRequest w GET (tweetURL id) = true /\
  client_Do w (trace st) GET (tweetURL id) = Response 200 true.
Proof.
  unfold checkTweetExists.
  destruct (http_NewRequest w GET (tweetURL id)); simpl.
  - destruct (client_Do w (trace st) GET (tweetURL id)) as [|status [|]]; simpl.
    + split; [discriminate | intros [_ H]; discriminate].
    + rewrite Z.eqb_eq. split.
      * intros ->. auto.
      * intros [_ H]. congruence.
    + split; [discriminate | intros [_ H]; discriminate].
  - split; [discriminate | intros [H _]; discriminate].
Qed.

(** The delete step counts the tweet once, as a success or as a failure. *)
Lemma deleteTweet_frame (w : World) (total : Z) (tweet : TwitterArchiveTweet)
    (st : ExecState) :
  let st' := deleteTweet w total tweet st in
  alreadyDeleted st' = alreadyDeleted st /\
  (success st' = success st + 1 /\ failures st' = failures st \/
   success st' = success st /\ failures st' = failures st + 1) /\
  exists es, trace st' = (trace st ++ es)%list /\
             Forall (fun e => isRateLimitReached e = false) es /\
             (http_NewRequest w DELETE (tweetURL (ID tweet)) = true ->
              In (Do DELETE (tweetURL (ID tweet))) es).
Proof.
  unfold deleteTweet. split_cases; simpl;
    (split; [reflexivity|]); (split; [auto|]);
    eexists; repeat rewrite <- app_assoc; simpl;
    (split; [reflexivity|]);
    (split; [repeat constructor|]);
    intro Hreq; try (rewrite Hreq in *; simpl in *; discriminate);
    simpl; auto.
Qed.

Lemma rateLimitPause_due (n : nat) (st : ExecState) :
  rateLimitPause (Z.of_nat n) st =
  if pauseDue n then emit [Print MsgRateLimitReached; Sleep rateLimitWindow] st else st.
Proof.
  unfold rateLimitPause, pauseDue, rateLimit.
  replace (Z.of_nat n >? 0) with (0 <? n)%nat.
  - replace (Z.rem (Z.of_nat n) 50 =? 0) with (n mod 50 =? 0)%nat; [reflexivity|].
    rewrite Z.rem_mod_nonneg by lia.
    change 50 with (Z.of_nat 50). rewrite <- Nat2Z.inj_mod.
    destruct (Nat.eqb_spec (n mod 50) 0) as [E|E].
    + rewrite E. reflexivity.
    + symmetry. apply Z.eqb_neq. lia.
  - rewrite Z.gtb_ltb.
    destruct (Nat.ltb_spec 0 n); symmetry; [apply Z.ltb_lt | apply Z.ltb_ge]; lia.
Qed.

Lemma rateLimitPause_frame (n : nat) (st : ExecState) :
  let st' := rateLimitPause (Z.of_nat n) st in
  success st' = success st /\ failures st' = failures st /\
  alreadyDeleted st' = alreadyDeleted st /\
  trace st' = (trace st ++
     if pauseDue n then [Print MsgRateLimitReached; Sleep rateLimitWindow] else [])%list.
Proof.
  simpl. rewrite rateLimitPause_due.
  destruct (pauseDue n); simpl; repeat split; auto.
  rewrite app_nil_r. reflexivity.
Qed.

(** One pass through the loop body: the pause when it is due, then the
    existence check, then the rest; one counter goes up by one. *)
Lemma loopBody_frame (w : World) (total : Z) (n : nat) (tweet : TwitterArchiveTweet)
    (st : ExecState) :
  let st1 := rateLimitPause (Z.of_nat n) st in
  let chk := checkTweetExists w (ID tweet) st1 in
  let st' := loopBody w total (Z.of_nat n) tweet st in
  exists rest,
    trace st' =
      (trace st
       ++ (if pauseDue n then [Print MsgRateLimitReached; Sleep rateLimitWindow] else [])
       ++ newEvents st1 (snd chk) ++ rest)%list /\
    Forall (fun e => isRateLimitReached e = false) rest /\
    (fst chk = false ->
       rest = [Print (MsgAlreadyDeleted (ID tweet))] /\
       success st' = success st /\ failures st' = failures st /\
       alreadyDeleted st' = alreadyDeleted st + 1) /\
    (fst chk = true ->
       alreadyDeleted st' = alreadyDeleted st /\
       (success st' = success st + 1 /\ failures st' = failures st \/
        success st' = success st /\ failures st' = failures st + 1) /\
       (http_NewRequest w DELETE (tweetURL (ID tweet)) = true ->
        In (Do DELETE (tweetURL (ID tweet))) rest)).
Proof.
  intros st1 chk st'.
  destruct (rateLimitPause_frame n st) as (P1 & P2 & P3 & P4).
  fold st1 in P1, P2, P3, P4.
  destruct (checkTweetExists_frame w (ID tweet) st1) as (C1 & C2 & C3 & es & C4 & _).
  fold chk in C1, C2, C3, C4.
  rewrite (newEvents_app _ _ _ C4).
  unfold st', loopBody. fold st1. fold chk.
  destruct chk as [present st2]. simpl in *.
  destruct present; simpl.
  - destruct (deleteTweet_frame w total tweet st2) as (D1 & D2 & ds & D3 & D4 & D5).
    exists ds. rewrite D3, C4, P4. repeat rewrite <- app_assoc.
    split; [reflexivity|]. split; [exact D4|].
    split; [discriminate|]. intros _.
    rewrite D1, C3, P3. split; [reflexivity|].
    split; [|exact D5]. rewrite C1, C2, P1, P2 in D2. exact D2.
  - exists [Print (MsgAlreadyDeleted (ID tweet))].
    rewrite C4, P4. repeat rewrite <- app_assoc.
    split; [reflexivity|]. split; [repeat constructor|].
    split; [|discriminate]. intros _.
    rewrite C1, C2, C3, P1, P2, P3. auto.
Qed.







Lemma loopBody_counts (w : World) (total i : Z) (tweet : TwitterArchiveTweet)
    (st : ExecState) :
  let st' := loopBody w total i tweet st in
  (success st' = success st + 1 /\ failures st' = failures st /\
   alreadyDeleted st' = alreadyDeleted st) \/
  (success st' = success st /\ failures st' = failures st + 1 /\
   alreadyDeleted st' = alreadyDeleted st) \/
  (success st' = success st /\ failures st' = failures st /\
   alreadyDeleted st' = alreadyDeleted st + 1).
Proof.
  assert (success (rateLimitPause i st) = success st /\
          failures (rateLimitPause i st) = failures st /\
          alreadyDeleted (rateLimitPause i st) = alreadyDeleted st) as (P1 & P2 & P3).
  { unfold rateLimitPause. split_cases; simpl; auto. }
  destruct (checkTweetExists_frame w (ID tweet) (rateLimitPause i st))
    as (C1 & C2 & C3 & _).
  unfold loopBody.
  destruct (checkTweetExists w (ID tweet) (rateLimitPause i st)) as [present st2].
  simpl in C1, C2, C3.
  destruct present; simpl.
  - destruct (deleteTweet_frame w total tweet st2) as (D1 & D2 & _).
    lia.
  - lia.
Qed.

Lemma deleteLoop_counts (w : World) (total : Z) (tweets : list TwitterArchiveTweet) :
  forall (i : Z) (st : ExecState),
    let st' := deleteLoop w total i tweets st in
    success st' + failures st' + alreadyDeleted st' =
    success st + failures st + alreadyDeleted st + len tweets.
Proof.
  induction tweets as [|tweet rest IH]; intros i st; simpl.
  - unfold len. simpl. lia.
  - simpl in IH. rewrite IH.
    pose proof (loopBody_counts w total i tweet st) as H. simpl in H.
    unfold len. simpl List.length. lia.
Qed.

Lemma printSummary_frame (total : Z) (st : ExecState) :
  let st' := printSummary total st in
  success st' = success st /\ failures st' = failures st /\
  alreadyDeleted st' = alreadyDeleted st /\
  exists es, trace st' = (trace st ++ es)%list /\
             Forall (fun e => isRateLimitReached e = false) es /\
             Forall (fun e => isCall e = false) es.
Proof.
  unfold printSummary. split_cases; simpl; repeat split;
    eexists; repeat rewrite <- app_assoc; simpl;
    (split; [reflexivity|]); split; repeat constructor.
Qed.

(** C1 (as the code has it). For every record the deletion loop processes,
    the existence check counts as "present" exactly when the read request
    could be built and was answered with HTTP 200 and a readable body.  In
    every other case, a "not found" answer and any other answer or failure
    alike, the record is counted as already deleted, the other two counters
    stay, and the iteration issues no delete call.  When the check says
    "present" the record is not counted as already deleted and, the delete
    request once built, a delete call is issued. *)
Theorem C1_only_http_200_reaches_delete (w : World) (total : Z) (n : nat)
    (tweet : TwitterArchiveTweet) (st : ExecState) :
  let st1 := rateLimitPause (Z.of_nat n) st in
  let present := fst (checkTweetExists w (ID tweet) st1) in
  let st' := loopBody w total (Z.of_nat n) tweet st in
  (present = true <->
     http_NewRequest w GET (tweetURL (ID tweet)) = true /\
     client_Do w (trace st1) GET (tweetURL (ID tweet)) = Response 200 true) /\
  (present = false ->
     alreadyDeleted st' = alreadyDeleted st + 1 /\
     success st' = success st /\ failures st' = failures st /\
     Forall (fun e => isDeleteCall e = false) (newEvents st st')) /\
  (present = true ->
     alreadyDeleted st' = alreadyDeleted st /\
     (http_NewRequest w DELETE (tweetURL (ID tweet)) = true ->
      In (Do DELETE (tweetURL (ID tweet))) (newEvents st st'))).
Proof.
  intros st1 present st'.
  split; [apply checkTweetExists_true|].
  destruct (loopBody_frame w total n tweet st) as (rest & T & _ & Gone & Kept).
  fold st1 in T, Gone, Kept. fold present in Gone, Kept. fold st' in T, Gone, Kept.
  destruct (checkTweetExists_frame w (ID tweet) st1) as (_ & _ & _ & es & C & _ & ND & _).
  rewrite (newEvents_app _ _ _ C) in T.
  rewrite (newEvents_app _ _ _ T).
  split.
  - intro H. destruct (Gone H) as (-> & S & F & A).
    repeat split; auto.
    apply Forall_app. split.
    + destruct (pauseDue n); repeat constructor.
    + apply Forall_app. split; [exact ND | repeat constructor].
  - intro H. destruct (Kept H) as (A & _ & D).
    split; [exact A|]. intro R.
    apply in_or_app. right. apply in_or_app. right. exact (D R).
Qed.

(** C1, an instance: the read endpoint answers 200 for a tweet, and the
    delete call follows. *)
Lemma C1_only_http_200_reaches_delete_witness :
  fst (checkTweetExists (Sample.world Sample.threeTweetArchive [] "y" Sample.ok) "1001"
         (rateLimitPause 0 initState)) = true /\
  In (Do DELETE (tweetURL "1001"))
     (newEvents initState
        (loopBody (Sample.world Sample.threeTweetArchive [] "y" Sample.ok) 1 0
                  Sample.tJan21 initState)).
Proof.
  split; [reflexivity|].
  apply (C1_only_http_200_reaches_delete
           (Sample.world Sample.threeTweetArchive [] "y" Sample.ok) 1 0
           Sample.tJan21 initState); reflexivity.
Defined.

(** C1 as stated fails: the read endpoint answers HTTP 500, which is
    neither success nor "not found"; the record is counted as already
    deleted and no delete call is made, where the claim has a delete call
    attempted. *)
Lemma C1_server_error_counted_as_gone :
  client_Do (Sample.world Sample.threeTweetArchive [] "y" Sample.readFails) []
            GET (tweetURL "1001") = Response 500 true /\
  loopBody (Sample.world Sample.threeTweetArchive [] "y" Sample.readFails) 1 0
           Sample.tJan21 initState =
    {| success := 0; failures := 0; alreadyDeleted := 1;
       trace := [Do GET (tweetURL "1001");
                 Print (MsgCheckResponse "1001" 500);
                 Print (MsgAlreadyDeleted "1001")] |} /\
  ~ (forall w total n tweet st status,
       http_NewRequest w GET (tweetURL (ID tweet)) = true ->
       client_Do w (trace (rateLimitPause (Z.of_nat n) st)) GET (tweetURL (ID tweet))
         = Response status true ->
       status <> 200 -> status <> 404 ->
       In (Do DELETE (tweetURL (ID tweet)))
          (trace (loopBody w total (Z.of_nat n) tweet st))).
Proof.
  split; [reflexivity|]. split; [reflexivity|].
  intro claim.
  specialize (claim (Sample.world Sample.threeTweetArchive [] "y" Sample.readFails)
                    1 0%nat Sample.tJan21 initState 500
                    eq_refl eq_refl ltac:(discriminate) ltac:(discriminate)).
  vm_compute in claim.
  repeat (destruct claim as [claim|claim]; [discriminate claim|]).
  exact claim.
Qed.


(** C10. Every iteration of the deletion loop raises exactly one of the
    three counters by one and leaves the other two, so after the pass over
    the confirmed selection the three counters add up to the number of
    records in it. *)
Theorem C10_counters_add_up_to_selection (w : World) (tweets : list TwitterArchiveTweet) :
  (forall total i tweet st,
     let st' := loopBody w total i tweet st in
     (success st' = success st + 1 /\ failures st' = failures st /\
      alreadyDeleted st' = alreadyDeleted st) \/
     (success st' = success st /\ failures st' = failures st + 1 /\
      alreadyDeleted st' = alreadyDeleted st) \/
     (success st' = success st /\ failures st' = failures st /\
      alreadyDeleted st' = alreadyDeleted st + 1)) /\
  success (executeDeletion w tweets) + failures (executeDeletion w tweets)
    + alreadyDeleted (executeDeletion w tweets) = len tweets.
Proof.
  split; [intros; apply loopBody_counts|].
  unfold executeDeletion.
  destruct (printSummary_frame (len tweets) (deleteLoop w (len tweets) 0 tweets initState))
    as (S & F & A & _).
  rewrite S, F, A.
  pose proof (deleteLoop_counts w (len tweets) tweets 0 initState) as H.
  simpl in H. lia.
Qed.

(** ** The selector *)

Section Selector.
Variable time_Parse : string -> option Time.
Variable pdqsort : (TwitterArchiveTweet -> TwitterArchiveTweet -> bool) ->
                   list TwitterArchiveTweet -> list TwitterArchiveTweet.

Lemma lessOldest_StrictWeak : GoSort.StrictWeak (lessOldest time_Parse).
Proof.
  unfold lessOldest, Before.
  constructor.
  - intro x. apply Z.ltb_irrefl.
  - intros x y z. rewrite !Z.ltb_lt. lia.
  - intros x y z. rewrite !Z.ltb_lt. lia.
Qed.

Lemma lessNewest_StrictWeak : GoSort.StrictWeak (lessNewest time_Parse).
Proof.
  unfold lessNewest, After.
  constructor.
  - intro x. rewrite Z.gtb_ltb. apply Z.ltb_irrefl.
  - intros x y z. rewrite !Z.gtb_ltb, !Z.ltb_lt. lia.
  - intros x y z. rewrite !Z.gtb_ltb, !Z.ltb_lt. lia.
Qed.

Lemma Ordered_lessOldest (l : list TwitterArchiveTweet) :
  GoSort.Ordered (lessOldest time_Parse) l ->
  StronglySorted (fun a b => createdTime time_Parse a <= createdTime time_Parse b) l.
Proof.
  apply StronglySorted_weaken.
  intros x y _ _. unfold lessOldest, Before. rewrite Z.ltb_ge. auto.
Qed.

Lemma Ordered_lessNewest (l : list TwitterArchiveTweet) :
  GoSort.Ordered (lessNewest time_Parse) l ->
  StronglySorted (fun a b => createdTime time_Parse a >= createdTime time_Parse b) l.
Proof.
  apply StronglySorted_weaken.
  intros x y _ _. unfold lessNewest, After. rewrite Z.gtb_ltb, Z.ltb_ge. lia.
Qed.

Lemma sortTweets_oldest (tweets : list TwitterArchiveTweet) :
  sortTweets time_Parse pdqsort "oldest" tweets =
  GoSort.Slice pdqsort (lessOldest time_Parse) tweets.
Proof. reflexivity. Qed.

Lemma sortTweets_newest (tweets : list TwitterArchiveTweet) :
  sortTweets time_Parse pdqsort "newest" tweets =
  GoSort.Slice pdqsort (lessNewest time_Parse) tweets.
Proof. reflexivity. Qed.

Hypothesis pdqsort_contract : GoSort.Contract pdqsort.

Lemma sortTweets_oldest_spec (tweets : list TwitterArchiveTweet) :
  Permutation tweets (sortTweets time_Parse pdqsort "oldest" tweets) /\
  StronglySorted (fun a b => createdTime time_Parse a <= createdTime time_Parse b)
                 (sortTweets time_Parse pdqsort "oldest" tweets).
Proof.
  rewrite sortTweets_oldest.
  destruct (Slice_Contract pdqsort pdqsort_contract (lessOldest time_Parse) tweets
              lessOldest_StrictWeak) as [P O].
  split; [exact P | apply Ordered_lessOldest, O].
Qed.

Lemma sortTweets_newest_spec (tweets : list TwitterArchiveTweet) :
  Permutation tweets (sortTweets time_Parse pdqsort "newest" tweets) /\
  StronglySorted (fun a b => createdTime time_Parse a >= createdTime time_Parse b)
                 (sortTweets time_Parse pdqsort "newest" tweets).
Proof.
  rewrite sortTweets_newest.
  destruct (Slice_Contract pdqsort pdqsort_contract (lessNewest time_Parse) tweets
              lessNewest_StrictWeak) as [P O].
  split; [exact P | apply Ordered_lessNewest, O].
Qed.

(** C5 (as the code has it). For every record list, [newest] gives the
    records rearranged so that parsed creation timestamps never increase
    along the output, and [oldest] gives them rearranged so that the
    timestamps never decrease.  The order among records with equal
    timestamps is whatever [sort.Slice] leaves: it is not a stable sort. *)
Theorem C5_sorted_by_creation_time (tweets : list TwitterArchiveTweet) :
  (Permutation tweets (sortTweets time_Parse pdqsort "newest" tweets) /\
   StronglySorted (fun a b => createdTime time_Parse a >= createdTime time_Parse b)
                  (sortTweets time_Parse pdqsort "newest" tweets)) /\
  (Permutation tweets (sortTweets time_Parse pdqsort "oldest" tweets) /\
   StronglySorted (fun a b => createdTime time_Parse a <= createdTime time_Parse b)
                  (sortTweets time_Parse pdqsort "oldest" tweets)).
Proof.
  split; [apply sortTweets_newest_spec | apply sortTweets_oldest_spec].
Qed.

(** Timestamps that are pairwise distinct turn "never increase" into
    "decrease". *)
Lemma strictly_descending (l : list TwitterArchiveTweet) :
  NoDup (map (createdTime time_Parse) l) ->
  StronglySorted (fun a b => createdTime time_Parse a >= createdTime time_Parse b) l ->
  StronglySorted (fun a b => createdTime time_Parse a > createdTime time_Parse b) l.
Proof.
  induction l as [|a l IH]; intros D S; [constructor|].
  inversion S as [|? ? Ss Sf]; subst.
  simpl in D. inversion D as [|? ? Dn Dd]; subst.
  constructor; [apply IH; assumption|].
  rewrite Forall_forall in *. intros y Hy.
  assert (createdTime time_Parse a <> createdTime time_Parse y) as Ne.
  { intro E. apply Dn. rewrite E. apply in_map, Hy. }
  specialize (Sf y Hy). lia.
Qed.

(** Two strictly descending arrangements of the same records are equal. *)
Lemma descending_unique (l1 l2 : list TwitterArchiveTweet) :
  Permutation l1 l2 ->
  StronglySorted (fun a b => createdTime time_Parse a > createdTime time_Parse b) l1 ->
  StronglySorted (fun a b => createdTime time_Parse a > createdTime time_Parse b) l2 ->
  l1 = l2.
Proof.
  revert l2.
  induction l1 as [|a l1 IH]; intros l2 P S1 S2.
  - apply Permutation_nil in P. congruence.
  - destruct l2 as [|b l2].
    + apply Permutation_sym, Permutation_nil in P. discriminate.
    + inversion S1 as [|? ? S1s S1f]; subst.
      inversion S2 as [|? ? S2s S2f]; subst.
      rewrite Forall_forall in S1f, S2f.
      assert (a = b) as ->.
      { assert (In a (b :: l2)) as Ia
          by (eapply Permutation_in; [exact P | left; reflexivity]).
        assert (In b (a :: l1)) as Ib
          by (eapply Permutation_in; [apply Permutation_sym, P | left; reflexivity]).
        destruct Ia as [E|Ia]; [congruence|].
        destruct Ib as [E|Ib]; [congruence|].
        specialize (S1f b Ib). specialize (S2f a Ia). lia. }
      f_equal. apply IH; [eapply Permutation_cons_inv; exact P | assumption | assumption].
Qed.

(** C6 (as the code has it). For every record list in which no timestamp
    fails to parse and no two records have the same parsed timestamp, the
    [newest] output is the exact reverse of the [oldest] output. *)
Theorem C6_newest_reverses_oldest (tweets : list TwitterArchiveTweet) :
  (forall t, In t tweets -> time_Parse (CreatedAt t) <> None) ->
  NoDup (map (createdTime time_Parse) tweets) ->
  sortTweets time_Parse pdqsort "newest" tweets =
  rev (sortTweets time_Parse pdqsort "oldest" tweets).
Proof.
  intros _ D.
  destruct (sortTweets_newest_spec tweets) as [PN SN].
  destruct (sortTweets_oldest_spec tweets) as [PO SO].
  apply descending_unique.
  - eapply Permutation_trans; [apply Permutation_sym, PN|].
    eapply Permutation_trans; [exact PO | apply Permutation_rev].
  - apply strictly_descending; [|exact SN].
    eapply Permutation_NoDup; [apply Permutation_map, PN | exact D].
  - apply strictly_descending.
    + eapply Permutation_NoDup; [|exact D].
      apply Permutation_map.
      eapply Permutation_trans; [exact PO | apply Permutation_rev].
    + apply StronglySorted_rev in SO.
      eapply StronglySorted_weaken; [|exact SO].
      intros x y _ _ H. simpl in H. lia.
Qed.

Lemma sorted_around {R : TwitterArchiveTweet -> TwitterArchiveTweet -> Prop}
    (front back : list TwitterArchiveTweet) (x : TwitterArchiveTweet) :
  StronglySorted R (front ++ x :: back) ->
  Forall (fun a => R a x) front /\ Forall (fun a => R x a) back.
Proof.
  intro S.
  apply StronglySorted_app_elim in S. destruct S as (_ & S2 & S12).
  split.
  - rewrite Forall_forall. intros a Ha. apply S12; [exact Ha | left; reflexivity].
  - inversion S2; subst. assumption.
Qed.

(** C7 (as the code has it). A record whose creation timestamp fails to
    parse is sorted with the zero Time as its timestamp, which is not the
    earliest value a timestamp can have.  In [oldest] mode no record dated after the
    zero Time comes before it and none dated before the zero Time comes
    after it; in [newest] mode it is the other way round.  When no record
    of the list is dated before the zero Time, it therefore stands in the
    leading block of zero-Time records in [oldest] mode and in the trailing
    block in [newest] mode. *)
Theorem C7_unparsed_sorts_as_zero_time (tweets : list TwitterArchiveTweet)
    (bad : TwitterArchiveTweet) :
  In bad tweets ->
  time_Parse (CreatedAt bad) = None ->
  createdTime time_Parse bad = zeroTime /\
  In bad (sortTweets time_Parse pdqsort "oldest" tweets) /\
  In bad (sortTweets time_Parse pdqsort "newest" tweets) /\
  (forall front back,
     sortTweets time_Parse pdqsort "oldest" tweets = (front ++ bad :: back)%list ->
     Forall (fun a => createdTime time_Parse a <= zeroTime) front /\
     Forall (fun a => zeroTime <= createdTime time_Parse a) back) /\
  (forall front back,
     sortTweets time_Parse pdqsort "newest" tweets = (front ++ bad :: back)%list ->
     Forall (fun a => zeroTime <= createdTime time_Parse a) front /\
     Forall (fun a => createdTime time_Parse a <= zeroTime) back) /\
  ((forall a, In a tweets -> zeroTime <= createdTime time_Parse a) ->
   (forall front back,
      sortTweets time_Parse pdqsort "oldest" tweets = (front ++ bad :: back)%list ->
      Forall (fun a => createdTime time_Parse a = zeroTime) front) /\
   (forall front back,
      sortTweets time_Parse pdqsort "newest" tweets = (front ++ bad :: back)%list ->
      Forall (fun a => createdTime time_Parse a = zeroTime) back)).
Proof.
  intros Hin Hfail.
  assert (createdTime time_Parse bad = zeroTime) as K
    by (unfold createdTime; rewrite Hfail; reflexivity).
  destruct (sortTweets_newest_spec tweets) as [PN SN].
  destruct (sortTweets_oldest_spec tweets) as [PO SO].
  assert (forall front back,
     sortTweets time_Parse pdqsort "oldest" tweets = (front ++ bad :: back)%list ->
     Forall (fun a => createdTime time_Parse a <= zeroTime) front /\
     Forall (fun a => zeroTime <= createdTime time_Parse a) back) as Old.
  { intros front back E. rewrite E in SO.
    apply sorted_around in SO. rewrite K in SO. exact SO. }
  assert (forall front back,
     sortTweets time_Parse pdqsort "newest" tweets = (front ++ bad :: back)%list ->
     Forall (fun a => zeroTime <= createdTime time_Parse a) front /\
     Forall (fun a => createdTime time_Parse a <= zeroTime) back) as New.
  { intros front back E. rewrite E in SN.
    apply sorted_around in SN. rewrite K in SN. destruct SN as [F B].
    split; eapply Forall_impl; try eassumption; simpl; intros; lia. }
  split; [exact K|].
  split; [eapply Permutation_in; [exact PO | exact Hin]|].
  split; [eapply Permutation_in; [exact PN | exact Hin]|].
  split; [exact Old|]. split; [exact New|].
  intro Hpos. split; intros front back E.
  - destruct (Old front back E) as [F _].
    rewrite Forall_forall in *. intros a Ha.
    assert (In a tweets) as Ia.
    { eapply Permutation_in; [apply Permutation_sym, PO|].
      rewrite E. apply in_or_app. left. exact Ha. }
    specialize (F a Ha). specialize (Hpos a Ia). lia.
  - destruct (New front back E) as [_ B].
    rewrite Forall_forall in *. intros a Ha.
    assert (In a tweets) as Ia.
    { eapply Permutation_in; [apply Permutation_sym, PN|].
      rewrite E. apply in_or_app. right. right. exact Ha. }
    specialize (B a Ha). specialize (Hpos a Ia). lia.
Qed.

End Selector.

(** C5, an instance: the thirteen tweets of [Sample.laterFirst], with
    [Sample.pivotFirstSort] standing for the quicksort of the library. *)
Lemma C5_sorted_by_creation_time_witness :
  GoSort.Contract (@Sample.pivotFirstSort TwitterArchiveTweet) /\
  StronglySorted
    (fun a b => createdTime Sample.parseTable a <= createdTime Sample.parseTable b)
    (sortTweets Sample.parseTable Sample.pivotFirstSort "oldest" Sample.laterFirst).
Proof.
  split; [exact pivotFirstSort_Contract|].
  apply (C5_sorted_by_creation_time Sample.parseTable Sample.pivotFirstSort
           pivotFirstSort_Contract Sample.laterFirst).
Defined.

(** C5 as stated fails: sorted [oldest], thirteen tweets of which the last
    eleven have the same timestamp come out with the seventh tweet ahead of
    the third to sixth, and the second ahead of the first; sorted [newest],
    the same happens to the other list.  The sort is one that meets the
    contract of [sort.Slice] and exchanges the first element with the pivot
    before it orders the slice. *)
Lemma C5_sort_slice_is_not_stable :
  GoSort.Contract (@Sample.pivotFirstSort TwitterArchiveTweet) /\
  map ID (sortTweets Sample.parseTable Sample.pivotFirstSort "oldest" Sample.laterFirst)
    = ["7"; "3"; "4"; "5"; "6"; "8"; "9"; "10"; "11"; "12"; "13"; "2"; "1"] /\
  map ID (sortTweets Sample.parseTable Sample.pivotFirstSort "newest" Sample.earlierFirst)
    = ["7"; "3"; "4"; "5"; "6"; "8"; "9"; "10"; "11"; "12"; "13"; "2"; "1"] /\
  ~ keepsTies Sample.parseTable Sample.laterFirst
      (sortTweets Sample.parseTable Sample.pivotFirstSort "oldest" Sample.laterFirst) /\
  ~ keepsTies Sample.parseTable Sample.earlierFirst
      (sortTweets Sample.parseTable Sample.pivotFirstSort "newest" Sample.earlierFirst).
Proof.
  split; [exact pivotFirstSort_Contract|].
  split; [reflexivity|]. split; [reflexivity|].
  split; intro K; specialize (K 63745056000); vm_compute in K; discriminate K.
Qed.

(** C6, an instance: three tweets with three different timestamps. *)
Lemma C6_newest_reverses_oldest_witness :
  NoDup (map (createdTime Sample.parseTable)
             [Sample.tJan21; Sample.tJun21; Sample.tJan20]) /\
  sortTweets Sample.parseTable Sample.pivotFirstSort "newest"
    [Sample.tJan21; Sample.tJun21; Sample.tJan20] =
  rev (sortTweets Sample.parseTable Sample.pivotFirstSort "oldest"
         [Sample.tJan21; Sample.tJun21; Sample.tJan20]).
Proof.
  assert (NoDup (map (createdTime Sample.parseTable)
                     [Sample.tJan21; Sample.tJun21; Sample.tJan20])) as D.
  { repeat constructor; simpl; intuition discriminate. }
  split; [exact D|].
  apply (C6_newest_reverses_oldest Sample.parseTable Sample.pivotFirstSort
           pivotFirstSort_Contract [Sample.tJan21; Sample.tJun21; Sample.tJan20]).
  - intros t [<-|[<-|[<-|[]]]]; discriminate.
  - exact D.
Defined.

(** C6 as stated fails: two tweets of the same second, both with a
    timestamp that parses, come out in archive order in both modes, so the
    [newest] output is not the reverse of the [oldest] output. *)
Lemma C6_equal_timestamps_not_reversed :
  Sample.parseTable (CreatedAt Sample.tJan21) = Some 63745056000 /\
  Sample.parseTable (CreatedAt Sample.tJan21b) = Some 63745056000 /\
  sortTweets Sample.parseTable Sample.pivotFirstSort "newest"
    [Sample.tJan21; Sample.tJan21b] = [Sample.tJan21; Sample.tJan21b] /\
  rev (sortTweets Sample.parseTable Sample.pivotFirstSort "oldest"
         [Sample.tJan21; Sample.tJan21b]) = [Sample.tJan21b; Sample.tJan21] /\
  sortTweets Sample.parseTable Sample.pivotFirstSort "newest"
    [Sample.tJan21; Sample.tJan21b] <>
  rev (sortTweets Sample.parseTable Sample.pivotFirstSort "oldest"
         [Sample.tJan21; Sample.tJan21b]).
Proof.
  repeat (split; [reflexivity|]).
  vm_compute. discriminate.
Qed.

(** C7, an instance: a tweet dated "yesterday" between two dated tweets. *)
Lemma C7_unparsed_sorts_as_zero_time_witness :
  In Sample.tBad [Sample.tJan21; Sample.tBad; Sample.tJun21] /\
  Sample.parseTable (CreatedAt Sample.tBad) = None /\
  createdTime Sample.parseTable Sample.tBad = zeroTime /\
  sortTweets Sample.parseTable Sample.pivotFirstSort "oldest"
    [Sample.tJan21; Sample.tBad; Sample.tJun21]
    = [Sample.tBad; Sample.tJan21; Sample.tJun21] /\
  sortTweets Sample.parseTable Sample.pivotFirstSort "newest"
    [Sample.tJan21; Sample.tBad; Sample.tJun21]
    = [Sample.tJun21; Sample.tJan21; Sample.tBad].
Proof.
  assert (In Sample.tBad [Sample.tJan21; Sample.tBad; Sample.tJun21]) as I
    by (right; left; reflexivity).
  split; [exact I|]. split; [reflexivity|].
  split; [|split; reflexivity].
  apply (C7_unparsed_sorts_as_zero_time Sample.parseTable Sample.pivotFirstSort
           pivotFirstSort_Contract [Sample.tJan21; Sample.tBad; Sample.tJun21]
           Sample.tBad I eq_refl).
Defined.

(** C7 as stated fails: the zero Time is not the earliest possible value.  A
    tweet dated in the year 0000 has a timestamp that parses to an instant
    before the zero Time, so in [oldest] mode it is listed ahead of the
    record whose timestamp does not parse, and in [newest] mode after it:
    that record is neither among the earliest nor among the latest. *)
Lemma C7_year_zero_sorts_before_unparsed :
  Sample.parseEarly (CreatedAt Sample.tBad) = None /\
  Sample.parseEarly (CreatedAt Sample.tYear0) = Some (-31622400) /\
  createdTime Sample.parseEarly Sample.tYear0 < zeroTime /\
  sortTweets Sample.parseEarly Sample.pivotFirstSort "oldest"
    [Sample.tBad; Sample.tYear0; Sample.tJan21]
    = [Sample.tYear0; Sample.tBad; Sample.tJan21] /\
  sortTweets Sample.parseEarly Sample.pivotFirstSort "newest"
    [Sample.tYear0; Sample.tBad; Sample.tJan21]
    = [Sample.tJan21; Sample.tBad; Sample.tYear0] /\
  ~ (forall time_Parse tweets bad front back,
       In bad tweets -> time_Parse (CreatedAt bad) = None ->
       sortTweets time_Parse Sample.pivotFirstSort "oldest" tweets
         = (front ++ bad :: back)%list ->
       Forall (fun a => createdTime time_Parse a = zeroTime) front).
Proof.
  split; [reflexivity|]. split; [reflexivity|]. split; [reflexivity|].
  split; [reflexivity|]. split; [reflexivity|].
  intro claim.
  specialize (claim Sample.parseEarly [Sample.tBad; Sample.tYear0; Sample.tJan21]
                    Sample.tBad [Sample.tYear0] [Sample.tJan21]
                    (or_introl eq_refl) eq_refl eq_refl).
  inversion claim as [|a l H _]. discriminate H.
Qed.

(** ** The command *)

Lemma stop_exec (e : Exit) : exec (stop e) = initState.
Proof. reflexivity. Qed.

Lemma selectTweets_not_completed
    (time_Parse : string -> option Time)
    (json_Unmarshal : string -> option (list TwitterArchiveTweet))
    (pdqsort : (TwitterArchiveTweet -> TwitterArchiveTweet -> bool) ->
               list TwitterArchiveTweet -> list TwitterArchiveTweet)
    (f : Flags) (w : World) :
  selectTweets time_Parse json_Unmarshal pdqsort f w <> inl ExitCompleted.
Proof.
  unfold selectTweets.
  destruct (loadTweets json_Unmarshal f w) as [e|tweets] eqn:Load.
  - intro E. injection E as ->. revert Load.
    unfold loadTweets. split_cases; discriminate.
  - simpl. split_cases; discriminate.
Qed.

(** C2. In dry-run mode the deletion executor is never engaged: whatever
    the selection, the run ends with the three counters at zero and an empty
    history (no request at all, so no delete call), and it does not end as a
    completed deletion; when the reader and the selector produce a
    selection, the run lists exactly that selection and exits. *)
Theorem C2_dry_run_never_deletes
    (time_Parse : string -> option Time)
    (json_Unmarshal : string -> option (list TwitterArchiveTweet))
    (pdqsort : (TwitterArchiveTweet -> TwitterArchiveTweet -> bool) ->
               list TwitterArchiveTweet -> list TwitterArchiveTweet)
    (f : Flags) (w : World) :
  dryRun f = true ->
  exec (runDelete time_Parse json_Unmarshal pdqsort f w) = initState /\
  exit (runDelete time_Parse json_Unmarshal pdqsort f w) <> ExitCompleted /\
  Forall (fun e => isCall e = false)
         (trace (exec (runDelete time_Parse json_Unmarshal pdqsort f w))) /\
  (forall tweets,
     selectTweets time_Parse json_Unmarshal pdqsort f w = inr tweets ->
     runDelete time_Parse json_Unmarshal pdqsort f w =
       {| exit := ExitDryRun; displayed := display time_Parse tweets;
          exec := initState |}).
Proof.
  intro Dry. unfold runDelete. rewrite Dry. simpl.
  destruct (selectTweets time_Parse json_Unmarshal pdqsort f w) as [e|tweets] eqn:Sel;
    simpl.
  - split; [reflexivity|]. split.
    + intros ->. exact (selectTweets_not_completed _ _ _ _ _ Sel).
    + split; [constructor | discriminate].
  - split; [reflexivity|]. split; [discriminate|].
    split; [constructor|].
    intros tweets' E. injection E as <-. reflexivity.
Qed.

(** C2, an instance: a dry run over the archive of three tweets, oldest
    first, limit 2. *)
Lemma C2_dry_run_never_deletes_witness :
  dryRun (Sample.flags 2 0 true "oldest") = true /\
  exec (runDelete Sample.parseTable Sample.unmarshalTable Sample.pivotFirstSort
          (Sample.flags 2 0 true "oldest")
          (Sample.world Sample.threeTweetArchive [] "y" Sample.ok)) = initState /\
  map lineID
      (displayed (runDelete Sample.parseTable Sample.unmarshalTable Sample.pivotFirstSort
                    (Sample.flags 2 0 true "oldest")
                    (Sample.world Sample.threeTweetArchive [] "y" Sample.ok)))
    = ["1003"; "1001"].
Proof.
  split; [reflexivity|]. split; [|reflexivity].
  apply (C2_dry_run_never_deletes Sample.parseTable Sample.unmarshalTable
           Sample.pivotFirstSort (Sample.flags 2 0 true "oldest")
           (Sample.world Sample.threeTweetArchive [] "y" Sample.ok) eq_refl).
Defined.

Lemma len_nonneg {A : Type} (l : list A) : 0 <= len l.
Proof. unfold len. lia. Qed.

Lemma loadTweets_nonempty (json_Unmarshal : string -> option (list TwitterArchiveTweet))
    (f : Flags) (w : World) (tweets : list TwitterArchiveTweet) :
  loadTweets json_Unmarshal f w = inr tweets -> len tweets > 0.
Proof.
  unfold loadTweets. split_cases; try discriminate.
  intro E. injection E as <-.
  match goal with H : (len ?l =? 0) = false |- len ?l > 0 =>
    apply Z.eqb_neq in H; pose proof (len_nonneg l); lia end.
Qed.

Lemma sortTweets_len (time_Parse : string -> option Time)
    (pdqsort : (TwitterArchiveTweet -> TwitterArchiveTweet -> bool) ->
               list TwitterArchiveTweet -> list TwitterArchiveTweet)
    (order : string) (tweets : list TwitterArchiveTweet) :
  GoSort.Contract pdqsort ->
  len (sortTweets time_Parse pdqsort order tweets) = len tweets.
Proof.
  intro C. unfold len. f_equal. symmetry.
  unfold sortTweets.
  destruct (order =? "oldest")%string.
  - apply Permutation_length.
    apply (Slice_Contract pdqsort C _ _ (lessOldest_StrictWeak time_Parse)).
  - destruct (order =? "newest")%string; [|reflexivity].
    apply Permutation_length.
    apply (Slice_Contract pdqsort C _ _ (lessNewest_StrictWeak time_Parse)).
Qed.


(** C3. The Selector is given a positive limit and the record list of the
    reader, which is never empty.  For every such list and every offset: an
    offset greater than or equal to the record count ends the selector with
    the range error, and the run ends there with nothing listed and nothing
    deleted; otherwise the offset is applied before the limit, the
    selection being the first [limit] records of what follows the first
    [offset] records.  (With a limit of zero or less, outside the Selector's
    contract, the code applies neither offset nor limit.) *)
Theorem C3_offset_then_limit (lim off : Z) (tweets : list TwitterArchiveTweet) :
  (lim > 0 -> tweets <> [] -> off >= len tweets ->
   applyOffsetLimit lim off tweets = None) /\
  (lim > 0 -> off < len tweets ->
   applyOffsetLimit lim off tweets =
     Some (firstn (Z.to_nat lim) (skipn (Z.to_nat off) tweets))) /\
  (lim <= 0 -> applyOffsetLimit lim off tweets = Some tweets) /\
  (forall time_Parse json_Unmarshal pdqsort f w,
     GoSort.Contract pdqsort ->
     loadTweets json_Unmarshal f w = inr tweets ->
     limit f > 0 -> offset f >= len tweets ->
     runDelete time_Parse json_Unmarshal pdqsort f w = stop ExitOffsetTooLarge).
Proof.
  assert (lim > 0 -> tweets <> [] -> off >= len tweets ->
          applyOffsetLimit lim off tweets = None) as Range.
  { intros L N O. unfold applyOffsetLimit.
    assert (len tweets > 0) as P.
    { destruct tweets; [congruence | unfold len; simpl List.length; lia]. }
    replace (lim >? 0) with true by (symmetry; apply Z.gtb_lt; lia).
    replace (off >? 0) with true by (symmetry; apply Z.gtb_lt; lia).
    replace (off >=? len tweets) with true by (symmetry; apply Z.geb_le; lia).
    reflexivity. }
  split; [exact Range|]. split; [|split].
  - intros L O. unfold applyOffsetLimit.
    replace (lim >? 0) with true by (symmetry; apply Z.gtb_lt; lia).
    assert ((if off >? 0
             then if off >=? len tweets then None
                  else Some (skipn (Z.to_nat off) tweets)
             else Some tweets) = Some (skipn (Z.to_nat off) tweets)) as ->.
    { destruct (Z.gtb_spec off 0) as [P|P].
      - replace (off >=? len tweets) with false; [reflexivity|].
        symmetry. rewrite Z.geb_leb. apply Z.leb_gt. lia.
      - replace (Z.to_nat off) with 0%nat by lia. reflexivity. }
    destruct (Z.gtb_spec (len (skipn (Z.to_nat off) tweets)) lim) as [G|G].
    + reflexivity.
    + rewrite firstn_all2; [reflexivity|]. unfold len in G. lia.
  - intro L. unfold applyOffsetLimit.
    replace (lim >? 0) with false; [reflexivity|].
    symmetry. rewrite Z.gtb_ltb. apply Z.ltb_ge. lia.
  - intros time_Parse json_Unmarshal pdqsort f w C Load L O.
    unfold runDelete, selectTweets. rewrite Load. simpl.
    pose proof (loadTweets_nonempty _ _ _ _ Load) as P.
    pose proof (sortTweets_len time_Parse pdqsort (sortOrder f) tweets C) as E.
    unfold applyOffsetLimit.
    replace (limit f >? 0) with true by (symmetry; apply Z.gtb_lt; lia).
    replace (offset f >? 0) with true by (symmetry; apply Z.gtb_lt; lia).
    rewrite E.
    replace (offset f >=? len tweets) with true
      by (symmetry; apply Z.geb_le; lia).
    reflexivity.
Qed.

(** C3, an instance: limit 2 and offset 5 on three tweets. *)
Lemma C3_offset_then_limit_witness :
  2 > 0 /\ [Sample.tJan21; Sample.tJun21; Sample.tJan20] <> [] /\
  5 >= len [Sample.tJan21; Sample.tJun21; Sample.tJan20] /\
  applyOffsetLimit 2 5 [Sample.tJan21; Sample.tJun21; Sample.tJan20] = None.
Proof.
  assert (5 >= len [Sample.tJan21; Sample.tJun21; Sample.tJan20]) as O
    by (unfold len; simpl; lia).
  split; [lia|]. split; [discriminate|]. split; [exact O|].
  apply (proj1 (C3_offset_then_limit 2 5 [Sample.tJan21; Sample.tJun21; Sample.tJan20]));
    [lia | discriminate | exact O].
Defined.

(** Outside the Selector's contract: with [--limit 0] an offset of 5 on an
    archive of three tweets raises no range error; the offset is not
    applied at all and every tweet is selected. *)
Lemma limit_zero_disables_the_offset :
  5 >= len [Sample.tJan21; Sample.tJun21; Sample.tJan20] /\
  applyOffsetLimit 0 5 [Sample.tJan21; Sample.tJun21; Sample.tJan20]
    = Some [Sample.tJan21; Sample.tJun21; Sample.tJan20] /\
  exit (runDelete Sample.parseTable Sample.unmarshalTable Sample.pivotFirstSort
          (Sample.flags 0 5 true "original")
          (Sample.world Sample.threeTweetArchive [] "y" Sample.ok)) = ExitDryRun /\
  map lineID
      (displayed (runDelete Sample.parseTable Sample.unmarshalTable Sample.pivotFirstSort
                    (Sample.flags 0 5 true "original")
                    (Sample.world Sample.threeTweetArchive [] "y" Sample.ok)))
    = ["1001"; "1002"; "1003"].
Proof.
  split; [unfold len; simpl; lia|].
  repeat split; reflexivity.
Qed.

(** C4 at [--limit 101]: nothing rejects the limit.  On an archive of 150
    tweets the selector keeps 101 of them, the dry run lists 101 lines, and
    the confirmed run sends 101 delete calls. *)
Theorem C4_limit_above_100_is_accepted :
  limit (Sample.flags 101 0 true "original") = 101 /\
  (exists tweets,
     selectTweets Sample.parseTable Sample.unmarshalTable Sample.pivotFirstSort
       (Sample.flags 101 0 true "original")
       (Sample.world Sample.bigArchive [] "y" Sample.ok) = inr tweets /\
     len tweets = 101) /\
  exit (runDelete Sample.parseTable Sample.unmarshalTable Sample.pivotFirstSort
          (Sample.flags 101 0 true "original")
          (Sample.world Sample.bigArchive [] "y" Sample.ok)) = ExitDryRun /\
  len (displayed (runDelete Sample.parseTable Sample.unmarshalTable Sample.pivotFirstSort
                    (Sample.flags 101 0 true "original")
                    (Sample.world Sample.bigArchive [] "y" Sample.ok))) = 101 /\
  success (exec (runDelete Sample.parseTable Sample.unmarshalTable Sample.pivotFirstSort
                   (Sample.flags 101 0 false "original")
                   (Sample.world Sample.bigArchive [] "y" Sample.ok))) = 101.
Proof.
  split; [reflexivity|]. split.
  - eexists. split; [vm_compute; reflexivity | vm_compute; reflexivity].
  - repeat split; vm_compute; reflexivity.
Qed.

(** ** The archive reader *)

Lemma append_assoc (a b c : string) : ((a ++ b) ++ c = a ++ (b ++ c))%string.
Proof.
  induction a as [|ch a IH]; simpl; [reflexivity|].
  rewrite IH. reflexivity.
Qed.

Lemma append_cancel (a b c : string) : (a ++ b = a ++ c)%string -> b = c.
Proof.
  induction a as [|ch a IH]; simpl; intro H; [exact H|].
  injection H as H. apply IH, H.
Qed.

Lemma oldFormatFile_not_current (root : string) :
  oldFormatFile root <> tweetsFile root.
Proof.
  unfold oldFormatFile, tweetsFile, Join. simpl.
  intro H. apply append_cancel in H. discriminate H.
Qed.

Lemma oldFormatFile_not_in_dataDir (w : World) (root : string) :
  ~ In (oldFormatFile root) (dataDirFiles w root).
Proof.
  unfold dataDirFiles.
  destruct (statOk w (tweetDataDir root)); [|intros []].
  destruct (ioutil_ReadDir w (tweetDataDir root)) as [files|]; [|intros []].
  rewrite in_map_iff. intros (file & E & _).
  unfold oldFormatFile, tweetDataDir, Join in E. simpl in E.
  rewrite append_assoc in E. apply append_cancel in E.
  simpl in E. discriminate E.
Qed.

Lemma readTweets_app (json_Unmarshal : string -> option (list TwitterArchiveTweet))
    (w : World) (files1 files2 : list string) :
  readTweets json_Unmarshal w (files1 ++ files2) =
  (readTweets json_Unmarshal w files1 ++ readTweets json_Unmarshal w files2)%list.
Proof. unfold readTweets. apply flat_map_app. Qed.

(** C8 (as the code has it). For every archive root the list of data files
    is the aggregate file [data/tweets.js] when it exists, followed by the
    [.js] files of the shard directory [data/tweets] when it exists, and
    only when these two gave no file at all the legacy file [data/tweet.js]
    when it exists.  So the aggregate file does not keep the shard files
    out: both contribute; the legacy file, when it is read, is the only
    file read.  The records are those of the files, in file-list order. *)
Theorem C8_reader_locations (w : World) (root : string) :
  findTweetFiles w root =
    (currentFormatFiles w root ++ dataDirFiles w root ++
     (if (len (currentFormatFiles w root ++ dataDirFiles w root) =? 0)
         && statOk w (oldFormatFile root)
      then [oldFormatFile root] else []))%list /\
  (statOk w (tweetsFile root) = true ->
   findTweetFiles w root = tweetsFile root :: dataDirFiles w root) /\
  (In (oldFormatFile root) (findTweetFiles w root) ->
   statOk w (tweetsFile root) = false /\ dataDirFiles w root = [] /\
   findTweetFiles w root = [oldFormatFile root]) /\
  (forall json_Unmarshal,
     readTweets json_Unmarshal w (findTweetFiles w root) =
       (readTweets json_Unmarshal w (currentFormatFiles w root)
        ++ readTweets json_Unmarshal w (dataDirFiles w root)
        ++ readTweets json_Unmarshal w
             (if (len (currentFormatFiles w root ++ dataDirFiles w root) =? 0)
                 && statOk w (oldFormatFile root)
              then [oldFormatFile root] else []))%list).
Proof.
  assert (findTweetFiles w root =
    (currentFormatFiles w root ++ dataDirFiles w root ++
     (if (len (currentFormatFiles w root ++ dataDirFiles w root) =? 0)
         && statOk w (oldFormatFile root)
      then [oldFormatFile root] else []))%list) as Shape.
  { unfold findTweetFiles.
    destruct (len (currentFormatFiles w root ++ dataDirFiles w root) =? 0);
      destruct (statOk w (oldFormatFile root)); simpl;
      rewrite ?app_nil_r, ?app_assoc; reflexivity. }
  split; [exact Shape|]. split; [|split].
  - intro Agg. unfold findTweetFiles, currentFormatFiles. rewrite Agg. reflexivity.
  - intro Old. unfold findTweetFiles in *.
    destruct (len (currentFormatFiles w root ++ dataDirFiles w root) =? 0) eqn:Empty.
    + apply Z.eqb_eq in Empty. unfold len in Empty.
      destruct (currentFormatFiles w root ++ dataDirFiles w root)%list
        as [|x rest] eqn:E; [|simpl in Empty; lia].
      apply app_eq_nil in E. destruct E as [EC ED].
      split.
      * unfold currentFormatFiles in EC.
        destruct (statOk w (tweetsFile root)); [discriminate EC | reflexivity].
      * split; [exact ED|].
        destruct (statOk w (oldFormatFile root)); [reflexivity | destruct Old].
    + exfalso. apply in_app_or in Old. destruct Old as [Old|Old].
      * unfold currentFormatFiles in Old.
        destruct (statOk w (tweetsFile root)); [|destruct Old].
        destruct Old as [Old|[]].
        exact (oldFormatFile_not_current root (eq_sym Old)).
      * exact (oldFormatFile_not_in_dataDir w root Old).
  - intro json_Unmarshal. rewrite Shape at 1. rewrite !readTweets_app. reflexivity.
Qed.

(** C8, an instance: the archive in the current format. *)
Lemma C8_reader_locations_witness :
  statOk (Sample.world Sample.threeTweetArchive [] "y" Sample.ok)
         (tweetsFile "archive") = true /\
  findTweetFiles (Sample.world Sample.threeTweetArchive [] "y" Sample.ok) "archive"
    = tweetsFile "archive"
      :: dataDirFiles (Sample.world Sample.threeTweetArchive [] "y" Sample.ok) "archive".
Proof.
  split; [reflexivity|].
  apply (C8_reader_locations (Sample.world Sample.threeTweetArchive [] "y" Sample.ok)
           "archive"); reflexivity.
Defined.

(** C8 as stated fails: in an archive that has both [data/tweets.js] and
    a [data/tweets] directory with [part1.js], the aggregate file matches
    and the shard file is read all the same; its record is the fourth of
    the extracted records. *)
Lemma C8_shards_read_beside_aggregate :
  statOk (Sample.world Sample.bothFormatsArchive [Sample.part1] "y" Sample.ok)
         (tweetsFile "archive") = true /\
  findTweetFiles (Sample.world Sample.bothFormatsArchive [Sample.part1] "y" Sample.ok)
                 "archive"
    = ["archive/data/tweets.js"; "archive/data/tweets/part1.js"] /\
  map ID (readTweetFile Sample.unmarshalTable
            (Sample.world Sample.bothFormatsArchive [Sample.part1] "y" Sample.ok)
            "archive/data/tweets/part1.js") = ["1004"] /\
  map ID (readTweets Sample.unmarshalTable
            (Sample.world Sample.bothFormatsArchive [Sample.part1] "y" Sample.ok)
            (findTweetFiles
               (Sample.world Sample.bothFormatsArchive [Sample.part1] "y" Sample.ok)
               "archive"))
    = ["1001"; "1002"; "1003"; "1004"].
Proof.
  repeat split; reflexivity.
Qed.

(** ** Further properties of the selector and the confirmation gate *)



(** ** More on the deletion loop *)

Lemma getCalls_app (l1 l2 : list Event) :
  getCalls (l1 ++ l2) = (getCalls l1 ++ getCalls l2)%list.
Proof. apply flat_map_app. Qed.

Lemma deleteCalls_app (l1 l2 : list Event) :
  deleteCalls (l1 ++ l2) = (deleteCalls l1 ++ deleteCalls l2)%list.
Proof. apply flat_map_app. Qed.

Ltac calls :=
  simpl; rewrite ?getCalls_app, ?deleteCalls_app; simpl; rewrite ?app_nil_r.

Lemma rateLimitPause_calls (i : Z) (st : ExecState) :
  getCalls (trace (rateLimitPause i st)) = getCalls (trace st) /\
  deleteCalls (trace (rateLimitPause i st)) = deleteCalls (trace st) /\
  success (rateLimitPause i st) = success st /\
  failures (rateLimitPause i st) = failures st.
Proof.
  unfold rateLimitPause. split_cases; calls; auto.
Qed.

Lemma checkTweetExists_calls (w : World) (id : string) (st : ExecState) :
  let chk := checkTweetExists w id st in
  getCalls (trace (snd chk)) =
    (getCalls (trace st)
     ++ if http_NewRequest w GET (tweetURL id) then [tweetURL id] else [])%list /\
  deleteCalls (trace (snd chk)) = deleteCalls (trace st) /\
  (fst chk = true -> http_NewRequest w GET (tweetURL id) = true).
Proof.
  unfold checkTweetExists.
  destruct (http_NewRequest w GET (tweetURL id)); simpl.
  - destruct (client_Do w (trace st) GET (tweetURL id)) as [|status [|]];
      calls; repeat rewrite <- app_assoc; auto.
  - rewrite app_nil_r. auto.
Qed.

Lemma deleteTweet_calls (w : World) (total : Z) (tweet : TwitterArchiveTweet)
    (st : ExecState) :
  let st' := deleteTweet w total tweet st in
  getCalls (trace st') = getCalls (trace st) /\
  deleteCalls (trace st') =
    (deleteCalls (trace st)
     ++ if http_NewRequest w DELETE (urlOf tweet) then [urlOf tweet] else [])%list /\
  (http_NewRequest w DELETE (urlOf tweet) = false -> success st' = success st).
Proof.
  unfold deleteTweet, urlOf.
  destruct (http_NewRequest w DELETE (tweetURL (ID tweet))); simpl.
  - destruct (client_Do w (trace st) DELETE (tweetURL (ID tweet))) as [|status b].
    + calls. repeat rewrite <- app_assoc. split; [reflexivity|].
      split; [reflexivity | discriminate].
    + destruct (status =? 200); simpl.
      * calls. repeat rewrite <- app_assoc. split; [reflexivity|].
        split; [reflexivity | discriminate].
      * destruct (status =? 429); calls; repeat rewrite <- app_assoc;
          (split; [reflexivity|]); (split; [reflexivity | discriminate]).
  - calls. auto.
Qed.

(** What one iteration adds to the requests: one read request when it can
    be built, and one delete request when the check said "present" and the
    delete request can be built. *)
Lemma loopBody_calls (w : World) (total i : Z) (tweet : TwitterArchiveTweet)
    (st : ExecState) :
  let st' := loopBody w total i tweet st in
  let present := fst (checkTweetExists w (ID tweet) (rateLimitPause i st)) in
  getCalls (trace st') =
    (getCalls (trace st)
     ++ if http_NewRequest w GET (urlOf tweet) then [urlOf tweet] else [])%list /\
  deleteCalls (trace st') =
    (deleteCalls (trace st)
     ++ if present && http_NewRequest w DELETE (urlOf tweet)
        then [urlOf tweet] else [])%list /\
  (present = true -> http_NewRequest w GET (urlOf tweet) = true) /\
  (present && http_NewRequest w DELETE (urlOf tweet) = false ->
   success st' = success st).
Proof.
  simpl.
  destruct (rateLimitPause_calls i st) as (PG & PD & PS & _).
  destruct (checkTweetExists_calls w (ID tweet) (rateLimitPause i st)) as (CG & CD & CP).
  destruct (checkTweetExists_frame w (ID tweet) (rateLimitPause i st)) as (CS & _).
  unfold loopBody, urlOf in *.
  destruct (checkTweetExists w (ID tweet) (rateLimitPause i st)) as [present st2].
  simpl in *.
  destruct present; simpl.
  - destruct (deleteTweet_calls w total tweet st2) as (DG & DD & DS).
    unfold urlOf in *.
    rewrite DG, DD, CG, CD, PG, PD.
    repeat split; auto.
    intro H. rewrite (DS H). lia.
  - calls. rewrite CG, CD, PG, PD.
    repeat split; auto; try discriminate. lia.
Qed.

Lemma no_calls (es : list Event) :
  Forall (fun e => isCall e = false) es -> getCalls es = [] /\ deleteCalls es = [].
Proof.
  induction 1 as [|e es He _ [IG ID]]; [split; reflexivity|].
  unfold getCalls, deleteCalls in *. simpl. rewrite IG, ID.
  destruct e as [m|d|[|] url]; simpl in *; try discriminate; auto.
Qed.

Lemma In_deleteCalls (url : string) (tr : list Event) :
  In url (deleteCalls tr) <-> In (Do DELETE url) tr.
Proof.
  unfold deleteCalls. rewrite in_flat_map. split.
  - intros (e & He & Hu).
    destruct e as [m|d|[|] u]; simpl in Hu; try contradiction.
    destruct Hu as [<-|[]]. exact He.
  - intro H. exists (Do DELETE url). split; [exact H | left; reflexivity].
Qed.

Lemma Subsequence_nil {A : Type} (l : list A) : Subsequence [] l.
Proof. induction l; constructor; assumption. Qed.

Lemma Subsequence_refl {A : Type} (l : list A) : Subsequence l l.
Proof. induction l; constructor; assumption. Qed.

Lemma Subsequence_app {A : Type} (a b c d : list A) :
  Subsequence a b -> Subsequence c d -> Subsequence (a ++ c) (b ++ d).
Proof.
  induction 1 as [|x l1 l2 S IH|x l1 l2 S IH]; intro K; simpl.
  - exact K.
  - apply SubSkip, IH, K.
  - apply SubKeep, IH, K.
Qed.

Lemma Subsequence_In {A : Type} (l1 l2 : list A) (x : A) :
  Subsequence l1 l2 -> In x l1 -> In x l2.
Proof.
  induction 1 as [|y l1 l2 S IH|y l1 l2 S IH]; intro K; simpl in *;
    [exact K | right; auto |].
  destruct K as [K|K]; [left; exact K | right; auto].
Qed.

Lemma Subsequence_length {A : Type} (l1 l2 : list A) :
  Subsequence l1 l2 -> (List.length l1 <= List.length l2)%nat.
Proof. induction 1; simpl; lia. Qed.

Lemma Subsequence_map_filter {A B : Type} (f : A -> B) (p : A -> bool) (l : list A) :
  Subsequence (map f (filter p l)) (map f l).
Proof.
  induction l as [|x l IH]; simpl; [constructor|].
  destruct (p x); simpl; constructor; exact IH.
Qed.

Lemma deleteLoop_getCalls (w : World) (total : Z) (tweets : list TwitterArchiveTweet) :
  forall (i : Z) (st : ExecState),
    getCalls (trace (deleteLoop w total i tweets st)) =
    (getCalls (trace st)
     ++ map urlOf (filter (fun t => http_NewRequest w GET (urlOf t)) tweets))%list.
Proof.
  induction tweets as [|tweet rest IH]; intros i st; simpl.
  - rewrite app_nil_r. reflexivity.
  - rewrite IH.
    destruct (loopBody_calls w total i tweet st) as (G & _). simpl in G.
    rewrite G, <- app_assoc.
    destruct (http_NewRequest w GET (urlOf tweet)); reflexivity.
Qed.

Lemma loopBody_callsAccounted (w : World) (total i : Z) (tweet : TwitterArchiveTweet)
    (st : ExecState) :
  callsAccounted st -> callsAccounted (loopBody w total i tweet st).
Proof.
  intros (S & Lo & Hi).
  destruct (loopBody_calls w total i tweet st) as (G & D & P & K).
  pose proof (loopBody_counts w total i tweet st) as Cn.
  simpl in G, D, P, K, Cn.
  assert (fst (checkTweetExists w (ID tweet) (rateLimitPause i st)) = true ->
          alreadyDeleted (loopBody w total i tweet st) = alreadyDeleted st) as Kept.
  { destruct (rateLimitPause_calls i st) as (_ & _ & _ & _).
    assert (alreadyDeleted (rateLimitPause i st) = alreadyDeleted st) as PA
      by (unfold rateLimitPause; split_cases; reflexivity).
    destruct (checkTweetExists_frame w (ID tweet) (rateLimitPause i st))
      as (_ & _ & CA & _).
    unfold loopBody.
    destruct (checkTweetExists w (ID tweet) (rateLimitPause i st)) as [present st2].
    simpl in *. intros ->. simpl.
    destruct (deleteTweet_frame w total tweet st2) as (DA & _). lia. }
  unfold callsAccounted. rewrite G, D.
  destruct (fst (checkTweetExists w (ID tweet) (rateLimitPause i st))) eqn:Present;
    simpl in *.
  - rewrite (P eq_refl).
    specialize (Kept eq_refl).
    destruct (http_NewRequest w DELETE (urlOf tweet)).
    + split; [apply Subsequence_app; [exact S | apply Subsequence_refl]|].
      unfold len in *. rewrite length_app. simpl List.length. lia.
    + split; [apply Subsequence_app; [exact S | apply Subsequence_nil]|].
      rewrite app_nil_r. specialize (K eq_refl). lia.
  - split.
    + apply Subsequence_app; [exact S | apply Subsequence_nil].
    + rewrite app_nil_r. specialize (K eq_refl). lia.
Qed.

Lemma deleteLoop_callsAccounted (w : World) (total : Z) (tweets : list TwitterArchiveTweet) :
  forall (i : Z) (st : ExecState),
    callsAccounted st -> callsAccounted (deleteLoop w total i tweets st).
Proof.
  induction tweets as [|tweet rest IH]; intros i st H; simpl; [exact H|].
  apply IH, loopBody_callsAccounted, H.
Qed.

Lemma executeDeletion_calls (w : World) (tweets : list TwitterArchiveTweet) :
  getCalls (trace (executeDeletion w tweets)) =
    getCalls (trace (deleteLoop w (len tweets) 0 tweets initState)) /\
  deleteCalls (trace (executeDeletion w tweets)) =
    deleteCalls (trace (deleteLoop w (len tweets) 0 tweets initState)).
Proof.
  unfold executeDeletion.
  destruct (printSummary_frame (len tweets) (deleteLoop w (len tweets) 0 tweets initState))
    as (_ & _ & _ & es & T & _ & N).
  destruct (no_calls es N) as [NG ND].
  rewrite T, getCalls_app, deleteCalls_app, NG, ND, !app_nil_r. auto.
Qed.

Lemma executeDeletion_getCalls (w : World) (tweets : list TwitterArchiveTweet) :
  getCalls (trace (executeDeletion w tweets)) =
    map urlOf (filter (fun t => http_NewRequest w GET (urlOf t)) tweets).
Proof.
  destruct (executeDeletion_calls w tweets) as [G _].
  rewrite G, deleteLoop_getCalls. reflexivity.
Qed.

(** The records are processed strictly in selection order, each with one
    existence check: the read requests of a pass are the URLs of the
    selected tweets, in order, those left out for which no request could be
    built; when every request can be built they are the URLs of the whole
    selection. *)
Theorem records_checked_once_in_order (w : World) (tweets : list TwitterArchiveTweet) :
  getCalls (trace (executeDeletion w tweets)) =
    map urlOf (filter (fun t => http_NewRequest w GET (urlOf t)) tweets) /\
  ((forall t, In t tweets -> http_NewRequest w GET (urlOf t) = true) ->
   getCalls (trace (executeDeletion w tweets)) = map urlOf tweets).
Proof.
  rewrite executeDeletion_getCalls.
  split; [reflexivity|].
  intro All. f_equal.
  induction tweets as [|t rest IH]; [reflexivity|].
  simpl. rewrite (All t (or_introl eq_refl)). f_equal.
  apply IH. intros t' H. apply All. right. exact H.
Qed.

Lemma records_checked_once_in_order_witness :
  getCalls (trace (executeDeletion (Sample.world Sample.threeTweetArchive [] "y" Sample.ok)
                     [Sample.tJan20; Sample.tJan21]))
    = [tweetURL "1003"; tweetURL "1001"].
Proof.
  apply (records_checked_once_in_order
           (Sample.world Sample.threeTweetArchive [] "y" Sample.ok)
           [Sample.tJan20; Sample.tJan21]).
  intros t _. reflexivity.
Defined.

(** A pass never sends a delete request for a record outside the
    selection, and never more than one for a record: the delete requests,
    in order, are the read requests with some left out, and these are the
    URLs of the selection with some left out.  Every delete request is
    counted as deleted or as failed, and the deleted count never exceeds the
    number of delete requests sent. *)
Theorem delete_calls_follow_checks (w : World) (tweets : list TwitterArchiveTweet) :
  Subsequence (deleteCalls (trace (executeDeletion w tweets)))
              (getCalls (trace (executeDeletion w tweets))) /\
  Subsequence (getCalls (trace (executeDeletion w tweets))) (map urlOf tweets) /\
  (forall url, In (Do DELETE url) (trace (executeDeletion w tweets)) ->
               exists t, In t tweets /\ url = tweetURL (ID t)) /\
  success (executeDeletion w tweets) <= len (deleteCalls (trace (executeDeletion w tweets))) /\
  len (deleteCalls (trace (executeDeletion w tweets)))
    <= success (executeDeletion w tweets) + failures (executeDeletion w tweets) /\
  len (deleteCalls (trace (executeDeletion w tweets))) <= len tweets.
Proof.
  assert (callsAccounted initState) as Init.
  { unfold callsAccounted, initState, len. simpl. split; [constructor | lia]. }
  pose proof (deleteLoop_callsAccounted w (len tweets) tweets 0 initState Init)
    as (S & Lo & Hi).
  destruct (executeDeletion_calls w tweets) as [G D].
  destruct (printSummary_frame (len tweets) (deleteLoop w (len tweets) 0 tweets initState))
    as (PS & PF & _).
  fold (executeDeletion w tweets) in PS, PF.
  assert (Subsequence (getCalls (trace (executeDeletion w tweets))) (map urlOf tweets)) as SG.
  { rewrite executeDeletion_getCalls.
    apply Subsequence_map_filter. }
  rewrite G, D, PS, PF. rewrite G in SG.
  split; [exact S|]. split; [exact SG|]. split; [|split; [exact Lo|split; [exact Hi|]]].
  - intros url H.
    rewrite <- In_deleteCalls, D in H.
    apply (Subsequence_In _ _ _ S), (Subsequence_In _ _ _ SG) in H.
    apply in_map_iff in H. destruct H as (t & E & I).
    exists t. split; [exact I | symmetry; exact E].
  - apply Subsequence_length in S, SG. rewrite length_map in SG.
    apply (proj1 (Nat2Z.inj_le _ _)). lia.
Qed.

(** What becomes of one delete request.  The record is counted as deleted
    exactly when the request could be built and was answered with HTTP 200;
    in every other case it is counted as failed.  At most one delete
    request is sent, so a failed call is not retried.  An answer 429 is
    followed by a pause of 15 minutes, and the short delay of 200 ms ends
    the step exactly when the request got an answer. *)
Theorem delete_call_outcome (w : World) (total : Z) (tweet : TwitterArchiveTweet)
    (st : ExecState) :
  let st' := deleteTweet w total tweet st in
  let built := http_NewRequest w DELETE (urlOf tweet) in
  let resp := client_Do w (trace st) DELETE (urlOf tweet) in
  (success st' = success st + 1 /\ failures st' = failures st <->
   built = true /\ exists b, resp = Response 200 b) /\
  (success st' = success st /\ failures st' = failures st + 1 <->
   ~ (built = true /\ exists b, resp = Response 200 b)) /\
  deleteCalls (newEvents st st') = (if built then [urlOf tweet] else []) /\
  (built = true -> forall b, resp = Response 429 b ->
   newEvents st st' =
     [Do DELETE (urlOf tweet); Print (MsgFailedToDelete (ID tweet) 429);
      Print MsgRateLimitExceeded; Sleep (15 * Minute); Sleep (200 * Millisecond)]) /\
  (last (newEvents st st') (Sleep 0) = Sleep (200 * Millisecond) <->
   built = true /\ exists status b, resp = Response status b).
Proof.
  unfold deleteTweet, urlOf. simpl.
  destruct (http_NewRequest w DELETE (tweetURL (ID tweet))) eqn:Built; simpl.
  - destruct (client_Do w (trace st) DELETE (tweetURL (ID tweet))) as [|status b] eqn:R.
    + erewrite newEvents_app by (simpl; rewrite <- ?app_assoc; reflexivity). simpl.
      split; [split; [intros [H _]; lia | intros [_ [b' H]]; discriminate]|].
      split; [split; [intros _ [_ [b' H]]; discriminate | auto]|].
      split; [reflexivity|]. split; [intros _ b' H; discriminate|].
      split; [discriminate | intros [_ (s' & b' & H)]; discriminate].
    + destruct (Z.eqb_spec status 200) as [E|E]; simpl.
      * subst status.
        erewrite newEvents_app by (simpl; rewrite <- ?app_assoc; reflexivity). simpl.
        split; [split; [intros _; split; [reflexivity | exists b; reflexivity] | auto]|].
        split; [split; [intros [H _]; lia
                       | intro N; exfalso; apply N; split;
                         [reflexivity | exists b; reflexivity]]|].
        split; [reflexivity|]. split; [intros _ b' H; discriminate|].
        split; [intros _; split; [reflexivity | exists 200, b; reflexivity]
               | reflexivity].
      * destruct (Z.eqb_spec status 429) as [T|T]; simpl;
          erewrite newEvents_app by (simpl; rewrite <- ?app_assoc; reflexivity); simpl;
          (split; [split; [intros [H _]; lia
                          | intros [_ [b' H]]; injection H as H _; contradiction]|]);
          (split; [split; [intros _ [_ [b' H]]; injection H as H _; contradiction
                          | auto]|]);
          (split; [reflexivity|]).
        -- subst status. split; [intros _ b' _; reflexivity|].
           split; [intros _; split; [reflexivity | exists 429, b; reflexivity]
                  | reflexivity].
        -- split; [intros _ b' H; injection H as H _; contradiction|].
           split; [intros _; split; [reflexivity | exists status, b; reflexivity]
                  | reflexivity].
  - erewrite newEvents_app by (simpl; rewrite <- ?app_assoc; reflexivity). simpl.
    split; [split; [intros [H _]; lia | intros [H _]; discriminate]|].
    split; [split; [intros _ [H _]; discriminate | auto]|].
    split; [reflexivity|]. split; [discriminate|].
    split; [discriminate | intros [H _]; discriminate].
Qed.

Lemma rateLimitPause_no_summary (i : Z) (st : ExecState) :
  exists es, trace (rateLimitPause i st) = (trace st ++ es)%list /\
             Forall (fun e => isSummaryLine e = false) es.
Proof.
  unfold rateLimitPause. split_cases; simpl.
  - eexists. split; [reflexivity | repeat constructor].
  - exists []. rewrite app_nil_r. split; [reflexivity | constructor].
Qed.

Lemma checkTweetExists_no_summary (w : World) (id : string) (st : ExecState) :
  exists es, trace (snd (checkTweetExists w id st)) = (trace st ++ es)%list /\
             Forall (fun e => isSummaryLine e = false) es.
Proof.
  unfold checkTweetExists. split_cases; simpl;
    try (exists []; rewrite app_nil_r; split; [reflexivity | constructor]);
    eexists; rewrite <- app_assoc; (split; [reflexivity | repeat constructor]).
Qed.

Lemma deleteTweet_no_summary (w : World) (total : Z) (tweet : TwitterArchiveTweet)
    (st : ExecState) :
  exists es, trace (deleteTweet w total tweet st) = (trace st ++ es)%list /\
             Forall (fun e => isSummaryLine e = false) es.
Proof.
  unfold deleteTweet. split_cases; simpl;
    eexists; rewrite <- ?app_assoc; (split; [reflexivity | repeat constructor]).
Qed.

Lemma loopBody_no_summary (w : World) (total i : Z) (tweet : TwitterArchiveTweet)
    (st : ExecState) :
  Forall (fun e => isSummaryLine e = false) (trace st) ->
  Forall (fun e => isSummaryLine e = false) (trace (loopBody w total i tweet st)).
Proof.
  intro H.
  destruct (rateLimitPause_no_summary i st) as (e1 & T1 & F1).
  destruct (checkTweetExists_no_summary w (ID tweet) (rateLimitPause i st))
    as (e2 & T2 & F2).
  unfold loopBody.
  destruct (checkTweetExists w (ID tweet) (rateLimitPause i st)) as [present st2].
  simpl in T2.
  assert (Forall (fun e => isSummaryLine e = false) (trace st2)) as H2.
  { rewrite T2, T1. repeat (apply Forall_app; split); assumption. }
  destruct present; simpl.
  - destruct (deleteTweet_no_summary w total tweet st2) as (e3 & T3 & F3).
    rewrite T3. apply Forall_app. split; assumption.
  - apply Forall_app. split; [exact H2 | repeat constructor].
Qed.

Lemma deleteLoop_no_summary (w : World) (total : Z) (tweets : list TwitterArchiveTweet) :
  forall (i : Z) (st : ExecState),
    Forall (fun e => isSummaryLine e = false) (trace st) ->
    Forall (fun e => isSummaryLine e = false) (trace (deleteLoop w total i tweets st)).
Proof.
  induction tweets as [|tweet rest IH]; intros i st H; simpl; [exact H|].
  apply IH, loopBody_no_summary, H.
Qed.

Lemma printSummary_trace (total : Z) (st : ExecState) :
  trace (printSummary total st) =
    (trace st
     ++ Print (MsgCompleted (success st) total (failures st) (alreadyDeleted st))
        :: (if failures st >? 0 then [Print MsgFailureNotes] else [])
        ++ (if (success st =? 0) && (failures st >? 0)
            then [Print MsgAccessWarning] else []))%list.
Proof.
  unfold printSummary. cbn [success failures alreadyDeleted emit].
  destruct (failures st >? 0) eqn:F; cbn [success failures alreadyDeleted emit];
    rewrite ?F; destruct (success st =? 0); simpl;
    rewrite <- ?app_assoc; reflexivity.
Qed.

(** The summary at the end of a pass.  It reports the final counters
    against the size of the selection, and it is the only such line.  The
    note on possible causes is printed exactly when some record failed, and
    the warning on API access exactly when some record failed and none was
    deleted. *)
Theorem summary_reports_final_counters (w : World) (tweets : list TwitterArchiveTweet) :
  (forall n total failed gone,
     In (Print (MsgCompleted n total failed gone)) (trace (executeDeletion w tweets)) <->
     n = success (executeDeletion w tweets) /\ total = len tweets /\
     failed = failures (executeDeletion w tweets) /\
     gone = alreadyDeleted (executeDeletion w tweets)) /\
  (In (Print MsgFailureNotes) (trace (executeDeletion w tweets)) <->
   failures (executeDeletion w tweets) > 0) /\
  (In (Print MsgAccessWarning) (trace (executeDeletion w tweets)) <->
   success (executeDeletion w tweets) = 0 /\ failures (executeDeletion w tweets) > 0).
Proof.
  pose proof (deleteLoop_no_summary w (len tweets) tweets 0 initState (Forall_nil _)) as N.
  rewrite Forall_forall in N.
  destruct (printSummary_frame (len tweets) (deleteLoop w (len tweets) 0 tweets initState))
    as (PS & PF & PA & _).
  fold (executeDeletion w tweets) in PS, PF, PA.
  rewrite PS, PF, PA.
  unfold executeDeletion. rewrite printSummary_trace.
  set (st := deleteLoop w (len tweets) 0 tweets initState) in *.
  assert (forall e, In e (trace st) -> isSummaryLine e = true -> False) as Not.
  { intros e I S. rewrite (N e I) in S. discriminate. }
  split; [|split].
  - intros n total failed gone. rewrite in_app_iff. split.
    + intros [H|H]; [exfalso; exact (Not _ H eq_refl)|].
      destruct H as [H|H]; [injection H as <- <- <- <-; auto|].
      exfalso. apply in_app_or in H.
      destruct (failures st >? 0); destruct ((success st =? 0) && true);
        destruct ((success st =? 0) && false); simpl in H;
        intuition discriminate.
    + intros (-> & -> & -> & ->). right. left. reflexivity.
  - rewrite in_app_iff. split.
    + intros [H|H]; [exfalso; exact (Not _ H eq_refl)|].
      destruct H as [H|H]; [discriminate H|].
      apply in_app_or in H.
      destruct (Z.gtb_spec (failures st) 0) as [F|F]; [lia|].
      rewrite andb_false_r in H. simpl in H. tauto.
    + intro F. right. right. apply in_or_app. left.
      replace (failures st >? 0) with true by (symmetry; apply Z.gtb_lt; lia).
      left. reflexivity.
  - rewrite in_app_iff. split.
    + intros [H|H]; [exfalso; exact (Not _ H eq_refl)|].
      destruct H as [H|H]; [discriminate H|].
      apply in_app_or in H.
      destruct (Z.gtb_spec (failures st) 0) as [F|F];
        destruct (Z.eqb_spec (success st) 0) as [S|S]; simpl in H;
        try (split; lia); intuition discriminate.
    + intros [S F]. right. right. apply in_or_app. right.
      replace (failures st >? 0) with true by (symmetry; apply Z.gtb_lt; lia).
      rewrite S. left. reflexivity.
Qed.

(** ** Strings, and what the reader and the listing do with them *)

Lemma length_append (a b : string) :
  String.length (a ++ b) = (String.length a + String.length b)%nat.
Proof. induction a as [|c a IH]; simpl; [reflexivity | rewrite IH; reflexivity]. Qed.

Lemma substring_all (s : string) : substring 0 (String.length s) s = s.
Proof. induction s as [|c s IH]; simpl; [reflexivity | rewrite IH; reflexivity]. Qed.

Lemma substring_after (p r : string) (m : nat) :
  substring (String.length p) m (p ++ r) = substring 0 m r.
Proof. induction p as [|c p IH]; simpl; [reflexivity | exact IH]. Qed.

Lemma substring_split (s : string) (m : nat) :
  (m <= String.length s)%nat ->
  s = (substring 0 m s ++ substring m (String.length s - m) s)%string.
Proof.
  revert s. induction m as [|m IH]; intros s H.
  - rewrite Nat.sub_0_r, substring_all.
    destruct s; reflexivity.
  - destruct s as [|c s]; simpl in *; [lia|].
    rewrite <- IH by lia. reflexivity.
Qed.

Lemma length_substring_0 (s : string) (m : nat) :
  (m <= String.length s)%nat -> String.length (substring 0 m s) = m.
Proof.
  revert s. induction m as [|m IH]; intros s H.
  - destruct s; reflexivity.
  - destruct s as [|c s]; simpl in *; [lia|]. rewrite IH by lia. reflexivity.
Qed.


Lemma prefix_append (p r : string) : prefix p (p ++ r) = true.
Proof.
  induction p as [|c p IH]; simpl; [destruct r; reflexivity|].
  destruct (ascii_dec c c) as [_|N]; [exact IH | contradiction].
Qed.

Lemma prefix_split (p s : string) :
  prefix p s = true -> exists r, s = (p ++ r)%string.
Proof.
  revert s. induction p as [|c p IH]; intros s H.
  - exists s. reflexivity.
  - destruct s as [|d s]; simpl in H; [discriminate|].
    destruct (ascii_dec c d) as [->|_]; [|discriminate].
    destruct (IH s H) as [r ->]. exists r. reflexivity.
Qed.

(** [strings.HasSuffix] holds exactly of the strings that end in the suffix. *)
Lemma HasSuffix_spec (s suffix : string) :
  HasSuffix s suffix = true <-> exists stem, s = (stem ++ suffix)%string.
Proof.
  unfold HasSuffix. split.
  - intro H. apply andb_prop in H. destruct H as [L E].
    apply Nat.leb_le in L. apply String.eqb_eq in E.
    exists (substring 0 (String.length s - String.length suffix) s).
    rewrite (substring_split s (String.length s - String.length suffix)) at 1 by lia.
    replace (String.length s - (String.length s - String.length suffix))%nat
      with (String.length suffix) by lia.
    rewrite E. reflexivity.
  - intros [stem ->]. rewrite length_append.
    apply andb_true_intro. split; [apply Nat.leb_le; lia|].
    replace (String.length stem + String.length suffix - String.length suffix)%nat
      with (String.length stem) by lia.
    rewrite substring_after, substring_all. apply String.eqb_refl.
Qed.

(** The data files taken from the [data/tweets] directory are exactly the
    entries of the directory listing that are not directories and whose
    name ends in [.js]; nothing is taken when the directory cannot be
    stat-ed or listed. *)
Theorem shard_files_are_the_js_entries (w : World) (root path : string) :
  In path (dataDirFiles w root) <->
  statOk w (tweetDataDir root) = true /\
  exists files entry stem,
    ioutil_ReadDir w (tweetDataDir root) = Some files /\
    In entry files /\ IsDir entry = false /\
    Name entry = (stem ++ ".js")%string /\
    path = Join [tweetDataDir root; Name entry].
Proof.
  unfold dataDirFiles. split.
  - destruct (statOk w (tweetDataDir root)); [|intros []].
    destruct (ioutil_ReadDir w (tweetDataDir root)) as [files|]; [|intros []].
    rewrite in_map_iff. intros (entry & E & I).
    apply filter_In in I. destruct I as [I K].
    apply andb_prop in K. destruct K as [D S].
    apply HasSuffix_spec in S. destruct S as [stem S].
    split; [reflexivity|]. exists files, entry, stem.
    repeat split; auto. destruct (IsDir entry); [discriminate | reflexivity].
  - intros (-> & files & entry & stem & -> & I & D & N & ->).
    apply in_map_iff. exists entry. split; [reflexivity|].
    apply filter_In. split; [exact I|].
    rewrite D. simpl. apply HasSuffix_spec. exists stem. exact N.
Qed.

Lemma shard_files_are_the_js_entries_witness :
  In "archive/data/tweets/part1.js"
     (dataDirFiles (Sample.world Sample.bothFormatsArchive [Sample.part1] "y" Sample.ok)
                   "archive").
Proof.
  apply (shard_files_are_the_js_entries
           (Sample.world Sample.bothFormatsArchive [Sample.part1] "y" Sample.ok)
           "archive" "archive/data/tweets/part1.js").
  split; [reflexivity|].
  exists [Sample.part1], Sample.part1, "part1".
  repeat split; try reflexivity. left. reflexivity.
Defined.

Lemma SplitN2_first (header rest : string) :
  occurs "=" header = false ->
  SplitN2 "= " (header ++ "= " ++ rest) = Some rest.
Proof.
  induction header as [|c header IH]; intro H.
  - change (SplitN2 "= " (String "=" (String " " rest)) = Some rest).
    cbn [SplitN2].
    replace (prefix "= " (String "=" (String " " rest))) with true
      by (symmetry; apply (prefix_append "= " rest)).
    f_equal.
    change (String "=" (String " " rest)) with ("= " ++ rest)%string.
    rewrite length_append.
    replace (String.length "= " + String.length rest - String.length "= ")%nat
      with (String.length rest) by lia.
    rewrite substring_after, substring_all. reflexivity.
  - simpl in H. apply orb_false_elim in H. destruct H as [Hc Hh].
    simpl append. cbn [SplitN2 prefix].
    destruct (ascii_dec "=" c) as [E|_].
    + subst c. first [discriminate Hc | vm_compute in Hc; discriminate Hc].
    + apply IH, Hh.
Qed.

Lemma SplitN2_none (s : string) :
  occurs "=" s = false -> SplitN2 "= " s = None.
Proof.
  induction s as [|c s IH]; intro H; [reflexivity|].
  simpl in H. apply orb_false_elim in H. destruct H as [Hc Hs].
  cbn [SplitN2 prefix].
  destruct (ascii_dec "=" c) as [E|_];
    [subst c; first [discriminate Hc | vm_compute in Hc; discriminate Hc]|].
  apply IH, Hs.
Qed.

Lemma SplitN2_sound (sep s : string) :
  forall rest, SplitN2 sep s = Some rest ->
               exists header, s = (header ++ sep ++ rest)%string.
Proof.
  induction s as [|c s IH]; intros rest H.
  - destruct sep as [|d sep]; simpl in H; [|discriminate H].
    injection H as <-. exists "". reflexivity.
  - change (SplitN2 sep (String c s))
      with (if prefix sep (String c s)
            then Some (substring (String.length sep)
                         (String.length (String c s) - String.length sep)
                         (String c s))
            else SplitN2 sep s) in H.
    destruct (prefix sep (String c s)) eqn:P.
    + apply (f_equal (fun o => match o with Some x => x | None => EmptyString end)) in H.
      cbv beta iota in H. subst rest.
      apply prefix_split in P. destruct P as [r E].
      exists "". rewrite E, length_append.
      replace (String.length sep + String.length r - String.length sep)%nat
        with (String.length r) by lia.
      rewrite substring_after, substring_all. reflexivity.
    + destruct (IH rest H) as [header ->]. exists (String c header). reflexivity.
Qed.

(** The assignment header of a data file.  A file that starts with
    [window.] is cut after the first ["= "]: when the header holds no [=]
    before it, what is parsed is exactly the text after the header, and
    whatever is parsed is a tail of the file that follows a ["= "].  A file
    of that kind without any [=] is not parsed at all, and a file that does
    not start with [window.] is parsed whole. *)
Theorem header_is_stripped (content : string) :
  (forall name js,
     occurs "=" name = false ->
     content = ("window." ++ name ++ "= " ++ js)%string ->
     jsonContent content = Some js) /\
  (forall js,
     prefix "window." content = true -> jsonContent content = Some js ->
     exists header, content = (header ++ "= " ++ js)%string) /\
  (prefix "window." content = true -> occurs "=" content = false ->
   jsonContent content = None) /\
  (prefix "window." content = false -> jsonContent content = Some content).
Proof.
  unfold jsonContent. split; [|split; [|split]].
  - intros name js N ->.
    rewrite prefix_append.
    change ("window." ++ name ++ "= " ++ js)%string
      with (("window." ++ name) ++ "= " ++ js)%string.
    apply SplitN2_first. simpl. exact N.
  - intros js P. rewrite P. apply SplitN2_sound.
  - intros P N. rewrite P. apply SplitN2_none, N.
  - intros P. rewrite P. reflexivity.
Qed.

Lemma header_is_stripped_witness :
  jsonContent "window.YTD.tweets.part0 = [three tweets]" = Some "[three tweets]".
Proof.
  apply (proj1 (header_is_stripped "window.YTD.tweets.part0 = [three tweets]")
               "YTD.tweets.part0 " "[three tweets]"); reflexivity.
Defined.

Lemma truncateText_length (text : string) :
  (String.length (truncateText text) <= 50)%nat.
Proof.
  unfold truncateText.
  destruct (Nat.ltb_spec 50 (String.length text)) as [L|L]; [|exact L].
  rewrite length_append, length_substring_0 by lia. simpl. lia.
Qed.



Lemma displayFrom_spec (time_Parse : string -> option Time)
    (tweets : list TwitterArchiveTweet) :
  forall i : Z,
    map lineID (displayFrom time_Parse i tweets) = map ID tweets /\
    map lineNo (displayFrom time_Parse i tweets) =
      map (fun k => i + Z.of_nat k) (seq 1 (List.length tweets)) /\
    Forall (fun l => (String.length (lineText l) <= 50)%nat)
           (displayFrom time_Parse i tweets).
Proof.
  induction tweets as [|tweet rest IH]; intro i; simpl.
  - repeat split; constructor.
  - destruct (IH (i + 1)) as (A & C & D).
    rewrite A, C. repeat split.
    + f_equal.
      rewrite <- (seq_shift (List.length rest) 1), map_map.
      apply map_ext. intro k. lia.
    + constructor; [apply truncateText_length | exact D].
Qed.

(** The listing shows the selection and nothing else: one line for each
    selected tweet, in selection order, numbered from 1, with the tweet's
    identifier and a text of at most 50 characters. *)
Theorem listing_shows_the_selection (time_Parse : string -> option Time)
    (tweets : list TwitterArchiveTweet) :
  List.length (display time_Parse tweets) = List.length tweets /\
  map lineID (display time_Parse tweets) = map ID tweets /\
  map lineNo (display time_Parse tweets) = map Z.of_nat (seq 1 (List.length tweets)) /\
  Forall (fun l => (String.length (lineText l) <= 50)%nat) (display time_Parse tweets).
Proof.
  unfold display.
  destruct (displayFrom_spec time_Parse tweets 0) as (A & C & D).
  split; [|repeat split; assumption].
  apply (f_equal (@List.length _)) in A. rewrite !length_map in A. exact A.
Qed.

(** ** More on the command as a whole *)

Lemma loadTweets_inr (json_Unmarshal : string -> option (list TwitterArchiveTweet))
    (f : Flags) (w : World) (tweets : list TwitterArchiveTweet) :
  loadTweets json_Unmarshal f w = inr tweets ->
  credentialMissing f = false /\
  os_Stat w (archivePath f) = StatOk true /\
  findTweetFiles w (archivePath f) <> [] /\
  tweets = readTweets json_Unmarshal w (findTweetFiles w (archivePath f)) /\
  tweets <> [].
Proof.
  unfold loadTweets. fold (credentialMissing f).
  destruct (credentialMissing f); [discriminate|].
  destruct (os_Stat w (archivePath f)) as [[|]| |]; try discriminate.
  destruct (len (findTweetFiles w (archivePath f)) =? 0) eqn:F; [discriminate|].
  destruct (len (readTweets json_Unmarshal w (findTweetFiles w (archivePath f))) =? 0)
    eqn:T; [discriminate|].
  intro E. injection E as <-.
  repeat split; auto.
  - intro N. rewrite N in F. discriminate F.
  - intro N. rewrite N in T. discriminate T.
Qed.

Lemma sortTweets_Permutation (time_Parse : string -> option Time)
    (pdqsort : (TwitterArchiveTweet -> TwitterArchiveTweet -> bool) ->
               list TwitterArchiveTweet -> list TwitterArchiveTweet)
    (order : string) (tweets : list TwitterArchiveTweet) :
  GoSort.Contract pdqsort ->
  Permutation tweets (sortTweets time_Parse pdqsort order tweets).
Proof.
  intro C. unfold sortTweets.
  destruct (order =? "oldest")%string.
  - apply (Slice_Contract pdqsort C _ _ (lessOldest_StrictWeak time_Parse)).
  - destruct (order =? "newest")%string; [|apply Permutation_refl].
    apply (Slice_Contract pdqsort C _ _ (lessNewest_StrictWeak time_Parse)).
Qed.

Lemma In_firstn {A : Type} (n : nat) (l : list A) (x : A) :
  In x (firstn n l) -> In x l.
Proof.
  intro H. rewrite <- (firstn_skipn n l). apply in_or_app. left. exact H.
Qed.

Lemma In_skipn {A : Type} (n : nat) (l : list A) (x : A) :
  In x (skipn n l) -> In x l.
Proof.
  intro H. rewrite <- (firstn_skipn n l). apply in_or_app. right. exact H.
Qed.

Lemma applyOffsetLimit_Some (lim off : Z) (tweets selection : list TwitterArchiveTweet) :
  applyOffsetLimit lim off tweets = Some selection ->
  incl selection tweets /\ (tweets <> [] -> selection <> []).
Proof.
  unfold applyOffsetLimit.
  destruct (Z.gtb_spec lim 0) as [L|L].
  - assert (forall l : list TwitterArchiveTweet,
              l <> [] ->
              (if len l >? lim then Some (firstn (Z.to_nat lim) l) else Some l)
                = Some selection ->
              incl selection l /\ selection <> []) as Cut.
    { intros l N E. destruct (len l >? lim).
      - injection E as <-. split.
        + intros x H. eapply In_firstn. exact H.
        + destruct l as [|x l]; [congruence|].
          replace (Z.to_nat lim) with (S (Z.to_nat lim - 1)) by lia.
          simpl. discriminate.
      - injection E as <-. split; [apply incl_refl | exact N]. }
    destruct (Z.gtb_spec off 0) as [O|O].
    + destruct (Z.geb_spec off (len tweets)) as [G|G]; [discriminate|].
      intro E.
      assert (skipn (Z.to_nat off) tweets <> []) as N.
      { intro K. apply (f_equal (@List.length _)) in K.
        rewrite length_skipn in K. simpl in K. unfold len in G. lia. }
      destruct (Cut _ N E) as [I S].
      split; [|intros _; exact S].
      intros x H. eapply In_skipn. apply I, H.
    + intro E. destruct tweets as [|t tweets].
      * simpl in E. destruct (len [] >? lim); injection E as <-;
          split; try apply incl_refl; auto; try (intros x H; destruct x; exact H).
        intros x H. rewrite firstn_nil in H. exact H.
      * destruct (Cut (t :: tweets) ltac:(discriminate) E) as [I S].
        split; [exact I | intros _; exact S].
  - intro E. injection E as <-. split; [apply incl_refl | auto].
Qed.

Lemma selectTweets_inr (time_Parse : string -> option Time)
    (json_Unmarshal : string -> option (list TwitterArchiveTweet))
    (pdqsort : (TwitterArchiveTweet -> TwitterArchiveTweet -> bool) ->
               list TwitterArchiveTweet -> list TwitterArchiveTweet)
    (f : Flags) (w : World) (selection : list TwitterArchiveTweet) :
  selectTweets time_Parse json_Unmarshal pdqsort f w = inr selection ->
  exists tweets,
    loadTweets json_Unmarshal f w = inr tweets /\
    applyOffsetLimit (limit f) (offset f)
      (sortTweets time_Parse pdqsort (sortOrder f) tweets) = Some selection.
Proof.
  unfold selectTweets.
  destruct (loadTweets json_Unmarshal f w) as [e|tweets]; [discriminate|].
  simpl.
  destruct (applyOffsetLimit (limit f) (offset f)
              (sortTweets time_Parse pdqsort (sortOrder f) tweets)) as [sel|] eqn:A;
    [|discriminate].
  intro E. injection E as <-. exists tweets. split; [reflexivity | exact A].
Qed.

Lemma executeDeletion_deletes_selected (w : World) (tweets : list TwitterArchiveTweet)
    (url : string) :
  In (Do DELETE url) (trace (executeDeletion w tweets)) ->
  exists t, In t tweets /\ url = tweetURL (ID t).
Proof.
  intro H.
  assert (callsAccounted initState) as Init.
  { unfold callsAccounted, initState, len. simpl. split; [constructor | lia]. }
  pose proof (deleteLoop_callsAccounted w (len tweets) tweets 0 initState Init)
    as (S & _).
  destruct (executeDeletion_calls w tweets) as [G D].
  rewrite <- In_deleteCalls, D in H.
  apply (Subsequence_In _ _ _ S) in H.
  rewrite <- G, executeDeletion_getCalls in H.
  apply in_map_iff in H. destruct H as (t & E & I).
  apply filter_In in I. destruct I as [I _].
  exists t. split; [exact I | symmetry; exact E].
Qed.

Lemma selectTweets_setDryRun (time_Parse : string -> option Time)
    (json_Unmarshal : string -> option (list TwitterArchiveTweet))
    (pdqsort : (TwitterArchiveTweet -> TwitterArchiveTweet -> bool) ->
               list TwitterArchiveTweet -> list TwitterArchiveTweet)
    (b : bool) (f : Flags) (w : World) :
  selectTweets time_Parse json_Unmarshal pdqsort (setDryRun b f) w =
  selectTweets time_Parse json_Unmarshal pdqsort f w.
Proof. reflexivity. Qed.

Lemma listing_ids (time_Parse : string -> option Time)
    (tweets : list TwitterArchiveTweet) :
  map lineID (display time_Parse tweets) = map ID tweets /\
  List.length (display time_Parse tweets) = List.length tweets.
Proof.
  destruct (displayFrom_spec time_Parse tweets 0) as (A & _).
  split; [exact A|].
  apply (f_equal (@List.length _)) in A. rewrite !length_map in A. exact A.
Qed.


(** A dry run previews the real run: with the same flags and the same
    archive, the listing of the dry run is the listing the real run shows
    before it asks, every delete request of the real run is for an
    identifier on that listing, and when the real run is confirmed (and
    every read request can be built) its existence checks go through the
    listed identifiers in the listed order. *)
Theorem dry_run_previews_the_real_run
    (time_Parse : string -> option Time)
    (json_Unmarshal : string -> option (list TwitterArchiveTweet))
    (pdqsort : (TwitterArchiveTweet -> TwitterArchiveTweet -> bool) ->
               list TwitterArchiveTweet -> list TwitterArchiveTweet)
    (f : Flags) (w : World) :
  displayed (runDelete time_Parse json_Unmarshal pdqsort (setDryRun true f) w) =
  displayed (runDelete time_Parse json_Unmarshal pdqsort (setDryRun false f) w) /\
  (forall url,
     In (Do DELETE url)
        (trace (exec (runDelete time_Parse json_Unmarshal pdqsort (setDryRun false f) w))) ->
     exists line,
       In line (displayed (runDelete time_Parse json_Unmarshal pdqsort
                             (setDryRun true f) w)) /\
       url = tweetURL (lineID line)) /\
  ((forall url, http_NewRequest w GET url = true) ->
   exit (runDelete time_Parse json_Unmarshal pdqsort (setDryRun false f) w)
     = ExitCompleted ->
   getCalls (trace (exec (runDelete time_Parse json_Unmarshal pdqsort
                            (setDryRun false f) w))) =
   map (fun line => tweetURL (lineID line))
       (displayed (runDelete time_Parse json_Unmarshal pdqsort (setDryRun true f) w))).
Proof.
  unfold runDelete. rewrite !selectTweets_setDryRun.
  destruct (selectTweets time_Parse json_Unmarshal pdqsort f w) as [e|sel]; simpl.
  - split; [reflexivity|]. split; [intros url []|].
    intros _ E. reflexivity.
  - destruct (listing_ids time_Parse sel) as [Ids _].
    destruct (confirmed w); simpl.
    + split; [reflexivity|]. split.
      * intros url H.
        destruct (executeDeletion_deletes_selected w sel url H) as (t & I & ->).
        assert (In (ID t) (map lineID (display time_Parse sel))) as K
          by (rewrite Ids; apply in_map, I).
        apply in_map_iff in K. destruct K as (line & E & L).
        exists line. split; [exact L | rewrite E; reflexivity].
      * intros All _. rewrite executeDeletion_getCalls.
        rewrite <- (map_map lineID tweetURL), Ids, map_map.
        f_equal. clear Ids.
        induction sel as [|t sel IH]; [reflexivity|].
        simpl. unfold urlOf at 1. rewrite All. f_equal. exact IH.
    + split; [reflexivity|]. split; [intros url []|].
      intros _ E. discriminate E.
Qed.

(** Only tweets of the archive are ever listed or deleted: every line of
    the listing carries the identifier of a tweet extracted from the data
    files of the archive, and every delete request is for the identifier of
    such a tweet. *)
Theorem only_archive_tweets_are_deleted
    (time_Parse : string -> option Time)
    (json_Unmarshal : string -> option (list TwitterArchiveTweet))
    (pdqsort : (TwitterArchiveTweet -> TwitterArchiveTweet -> bool) ->
               list TwitterArchiveTweet -> list TwitterArchiveTweet)
    (f : Flags) (w : World) :
  GoSort.Contract pdqsort ->
  (forall line,
     In line (displayed (runDelete time_Parse json_Unmarshal pdqsort f w)) ->
     exists t,
       In t (readTweets json_Unmarshal w (findTweetFiles w (archivePath f))) /\
       lineID line = ID t) /\
  (forall url,
     In (Do DELETE url) (trace (exec (runDelete time_Parse json_Unmarshal pdqsort f w))) ->
     exists t,
       In t (readTweets json_Unmarshal w (findTweetFiles w (archivePath f))) /\
       url = tweetURL (ID t)).
Proof.
  intro C. unfold runDelete.
  destruct (selectTweets time_Parse json_Unmarshal pdqsort f w) as [e|sel] eqn:Sel.
  - simpl. split; [intros line [] | intros url []].
  - destruct (selectTweets_inr _ _ _ _ _ _ Sel) as (tweets & Load & Cut).
    destruct (loadTweets_inr _ _ _ _ Load) as (_ & _ & _ & Read & _).
    destruct (applyOffsetLimit_Some _ _ _ _ Cut) as [Incl _].
    assert (forall t, In t sel ->
              In t (readTweets json_Unmarshal w (findTweetFiles w (archivePath f)))) as From.
    { intros t I. rewrite <- Read.
      eapply Permutation_in;
        [apply Permutation_sym, (sortTweets_Permutation time_Parse pdqsort (sortOrder f)), C|].
      apply Incl, I. }
    destruct (listing_ids time_Parse sel) as [Ids _].
    assert (forall line, In line (display time_Parse sel) ->
              exists t,
                In t (readTweets json_Unmarshal w (findTweetFiles w (archivePath f))) /\
                lineID line = ID t) as Lines.
    { intros line L.
      assert (In (lineID line) (map ID sel)) as K by (rewrite <- Ids; apply in_map, L).
      apply in_map_iff in K. destruct K as (t & E & I).
      exists t. split; [apply From, I | symmetry; exact E]. }
    destruct (dryRun f); simpl; [split; [exact Lines | intros url []]|].
    destruct (confirmed w); simpl; [|split; [exact Lines | intros url []]].
    split; [exact Lines|].
    intros url H.
    destruct (executeDeletion_deletes_selected w sel url H) as (t & I & ->).
    exists t. split; [apply From, I | reflexivity].
Qed.

Lemma only_archive_tweets_are_deleted_witness :
  GoSort.Contract (@Sample.pivotFirstSort TwitterArchiveTweet) /\
  (forall url,
     In (Do DELETE url)
        (trace (exec (runDelete Sample.parseTable Sample.unmarshalTable
                        Sample.pivotFirstSort (Sample.flags 2 0 false "oldest")
                        (Sample.world Sample.threeTweetArchive [] "y" Sample.ok)))) ->
     exists t,
       In t (readTweets Sample.unmarshalTable
               (Sample.world Sample.threeTweetArchive [] "y" Sample.ok)
               (findTweetFiles (Sample.world Sample.threeTweetArchive [] "y" Sample.ok)
                               "archive")) /\
       url = tweetURL (ID t)).
Proof.
  split; [exact pivotFirstSort_Contract|].
  apply (only_archive_tweets_are_deleted Sample.parseTable Sample.unmarshalTable
           Sample.pivotFirstSort (Sample.flags 2 0 false "oldest")
           (Sample.world Sample.threeTweetArchive [] "y" Sample.ok)
           pivotFirstSort_Contract).
Defined.

(** A selection that reaches the listing is never empty: the prompt never
    asks about zero tweets, and a confirmed run always processes at least
    one record. *)
Theorem selection_is_never_empty
    (time_Parse : string -> option Time)
    (json_Unmarshal : string -> option (list TwitterArchiveTweet))
    (pdqsort : (TwitterArchiveTweet -> TwitterArchiveTweet -> bool) ->
               list TwitterArchiveTweet -> list TwitterArchiveTweet)
    (f : Flags) (w : World) (selection : list TwitterArchiveTweet) :
  GoSort.Contract pdqsort ->
  selectTweets time_Parse json_Unmarshal pdqsort f w = inr selection ->
  selection <> [] /\ display time_Parse selection <> [].
Proof.
  intros C Sel.
  destruct (selectTweets_inr _ _ _ _ _ _ Sel) as (tweets & Load & Cut).
  destruct (loadTweets_inr _ _ _ _ Load) as (_ & _ & _ & _ & N).
  destruct (applyOffsetLimit_Some _ _ _ _ Cut) as [_ NE].
  assert (selection <> []) as S.
  { apply NE. intro E.
    pose proof (sortTweets_Permutation time_Parse pdqsort (sortOrder f) tweets C) as P.
    rewrite E in P. apply Permutation_sym, Permutation_nil in P. contradiction. }
  split; [exact S|].
  destruct selection; [contradiction | discriminate].
Qed.

Lemma selection_is_never_empty_witness :
  GoSort.Contract (@Sample.pivotFirstSort TwitterArchiveTweet) /\
  [Sample.tJan20; Sample.tJan21] <> [].
Proof.
  split; [exact pivotFirstSort_Contract|].
  apply (selection_is_never_empty Sample.parseTable Sample.unmarshalTable
           Sample.pivotFirstSort (Sample.flags 2 0 true "oldest")
           (Sample.world Sample.threeTweetArchive [] "y" Sample.ok)
           [Sample.tJan20; Sample.tJan21] pivotFirstSort_Contract eq_refl).
Defined.

Lemma readTweets_nil_iff (json_Unmarshal : string -> option (list TwitterArchiveTweet))
    (w : World) (files : list string) :
  readTweets json_Unmarshal w files = [] <->
  forall file, In file files -> readTweetFile json_Unmarshal w file = [].
Proof.
  unfold readTweets. induction files as [|file files IH]; simpl.
  - split; [intros _ file [] | reflexivity].
  - split.
    + intros E. apply app_eq_nil in E. destruct E as [E1 E2].
      intros file' [<-|I]; [exact E1 | apply IH; assumption].
    + intro All. rewrite (All file (or_introl eq_refl)). simpl.
      apply IH. intros file' I. apply All. right. exact I.
Qed.

(** The fatal errors of the reader, in the order they are checked: a
    missing credential stops the run before the archive is looked at; then
    the archive path must exist and be a directory; then some data file must
    be found; then the data files together must yield a tweet.  Each of
    them ends the run with nothing listed and nothing sent.  Single data
    files that fail are not fatal: as soon as one file of the list yields a
    tweet, the run goes on with the tweets of all files. *)
Theorem reader_fatal_errors
    (time_Parse : string -> option Time)
    (json_Unmarshal : string -> option (list TwitterArchiveTweet))
    (pdqsort : (TwitterArchiveTweet -> TwitterArchiveTweet -> bool) ->
               list TwitterArchiveTweet -> list TwitterArchiveTweet)
    (f : Flags) (w : World) :
  (credentialMissing f = true ->
   runDelete time_Parse json_Unmarshal pdqsort f w = stop ExitMissingCredentials) /\
  (credentialMissing f = false ->
   (os_Stat w (archivePath f) = StatNotExist ->
    runDelete time_Parse json_Unmarshal pdqsort f w = stop ExitArchiveNotExist) /\
   (os_Stat w (archivePath f) = StatOk false ->
    runDelete time_Parse json_Unmarshal pdqsort f w = stop ExitArchiveNotDir) /\
   (os_Stat w (archivePath f) = StatOk true ->
    (findTweetFiles w (archivePath f) = [] ->
     runDelete time_Parse json_Unmarshal pdqsort f w = stop ExitNoTweetFiles) /\
    (findTweetFiles w (archivePath f) <> [] ->
     (forall file, In file (findTweetFiles w (archivePath f)) ->
                   readTweetFile json_Unmarshal w file = []) ->
     runDelete time_Parse json_Unmarshal pdqsort f w = stop ExitNoTweets) /\
    (forall file, In file (findTweetFiles w (archivePath f)) ->
                  readTweetFile json_Unmarshal w file <> [] ->
     loadTweets json_Unmarshal f w =
       inr (readTweets json_Unmarshal w (findTweetFiles w (archivePath f)))))).
Proof.
  unfold runDelete, selectTweets, loadTweets. fold (credentialMissing f).
  split; [intros ->; reflexivity|].
  intros ->. split; [intros ->; reflexivity|]. split; [intros ->; reflexivity|].
  intros ->. split; [intros ->; reflexivity|].
  assert (forall l : list string, l <> [] -> (len l =? 0) = false) as NZ.
  { intros l N. destruct l; [contradiction | reflexivity]. }
  split.
  - intros N All. rewrite (NZ _ N).
    rewrite (proj2 (readTweets_nil_iff json_Unmarshal w _) All). reflexivity.
  - intros file I N.
    assert (findTweetFiles w (archivePath f) <> []) as NF
      by (intro E; rewrite E in I; exact I).
    rewrite (NZ _ NF).
    destruct (readTweets json_Unmarshal w (findTweetFiles w (archivePath f)))
      as [|t ts] eqn:R; [|reflexivity].
    exfalso. apply N. apply (proj1 (readTweets_nil_iff json_Unmarshal w _) R), I.
Qed.

Lemma reader_fatal_errors_witness :
  credentialMissing (Sample.flags 2 0 true "oldest") = false /\
  runDelete Sample.parseTable Sample.unmarshalTable Sample.pivotFirstSort
            (Sample.flags 2 0 true "oldest")
            (Sample.world [("archive/data/tweet.js", "window.YTD.tweet.part0 [one tweet]")]
                          [] "y" Sample.ok)
    = stop ExitNoTweets.
Proof.
  split; [reflexivity|].
  apply (reader_fatal_errors Sample.parseTable Sample.unmarshalTable
           Sample.pivotFirstSort (Sample.flags 2 0 true "oldest")
           (Sample.world [("archive/data/tweet.js", "window.YTD.tweet.part0 [one tweet]")]
                         [] "y" Sample.ok)); try reflexivity.
  - discriminate.
  - intros file [<-|[]]. reflexivity.
Defined.

(** A data file that cannot be read, that starts with [window.] and has no
    ["= "], or whose JSON does not parse, is skipped: the tweets of the
    files before it and after it are extracted all the same, in file
    order.  A file that parses adds its tweets between those of the files
    before it and those of the files after it. *)
Theorem failed_file_is_skipped
    (json_Unmarshal : string -> option (list TwitterArchiveTweet))
    (w : World) (before after : list string) (file : string) :
  (ioutil_ReadFile w file = None \/
   (exists content,
      ioutil_ReadFile w file = Some content /\ jsonContent content = None) \/
   (exists content js,
      ioutil_ReadFile w file = Some content /\ jsonContent content = Some js /\
      json_Unmarshal js = None) ->
   readTweets json_Unmarshal w (before ++ file :: after) =
     (readTweets json_Unmarshal w before ++ readTweets json_Unmarshal w after)%list) /\
  (forall content js tweets,
     ioutil_ReadFile w file = Some content -> jsonContent content = Some js ->
     json_Unmarshal js = Some tweets ->
     readTweets json_Unmarshal w (before ++ file :: after) =
       (readTweets json_Unmarshal w before ++ tweets
        ++ readTweets json_Unmarshal w after)%list).
Proof.
  split.
  - intro Fail.
    assert (readTweetFile json_Unmarshal w file = []) as E.
    { unfold readTweetFile.
      destruct Fail as [R|[(content & R & J)|(content & js & R & J & U)]];
        rewrite R; try rewrite J; try rewrite U; reflexivity. }
    rewrite readTweets_app. unfold readTweets at 2. simpl. rewrite E. reflexivity.
  - intros content js tweets R J U.
    rewrite readTweets_app. unfold readTweets at 2. simpl.
    unfold readTweetFile. rewrite R, J, U. reflexivity.
Qed.

Lemma failed_file_is_skipped_witness :
  readTweets Sample.unmarshalTable
    (Sample.world Sample.bothFormatsArchive [Sample.part1] "y" Sample.ok)
    (["archive/data/tweets.js"] ++ "archive/data/missing.js"
     :: ["archive/data/tweets/part1.js"])
  = (readTweets Sample.unmarshalTable
       (Sample.world Sample.bothFormatsArchive [Sample.part1] "y" Sample.ok)
       ["archive/data/tweets.js"]
     ++ readTweets Sample.unmarshalTable
          (Sample.world Sample.bothFormatsArchive [Sample.part1] "y" Sample.ok)
          ["archive/data/tweets/part1.js"])%list.
Proof.
  apply (failed_file_is_skipped Sample.unmarshalTable
           (Sample.world Sample.bothFormatsArchive [Sample.part1] "y" Sample.ok)
           ["archive/data/tweets.js"] ["archive/data/tweets/part1.js"]
           "archive/data/missing.js").
  left. reflexivity.
Defined.

(** ** The answer at the prompt *)

Ltac each_ascii c :=
  destruct c as [[|] [|] [|] [|] [|] [|] [|] [|]].

Lemma lowerAscii_space (c : ascii) : isSpace (lowerAscii c) = isSpace c.
Proof. each_ascii c; reflexivity. Qed.

Lemma lowerAscii_of_space (c : ascii) : isSpace c = true -> lowerAscii c = c.
Proof. each_ascii c; intro H; try reflexivity; discriminate H. Qed.

Lemma lowerAscii_y (c : ascii) :
  lowerAscii c = "y"%char <-> c = "y"%char \/ c = "Y"%char.
Proof.
  each_ascii c; vm_compute; split;
    try (intro H; discriminate H);
    try (intros [H|H]; discriminate H);
    auto.
Qed.

Lemma ToLower_append (a b : string) :
  ToLower (a ++ b) = (ToLower a ++ ToLower b)%string.
Proof. induction a as [|c a IH]; simpl; [reflexivity | rewrite IH; reflexivity]. Qed.

Lemma ToLower_allSpace (s : string) : allSpace (ToLower s) = allSpace s.
Proof.
  induction s as [|c s IH]; simpl; [reflexivity|].
  rewrite lowerAscii_space, IH. reflexivity.
Qed.

Lemma ToLower_of_space (s : string) : allSpace s = true -> ToLower s = s.
Proof.
  induction s as [|c s IH]; simpl; intro H; [reflexivity|].
  apply andb_prop in H. destruct H as [Hc Hs].
  rewrite (lowerAscii_of_space c Hc), (IH Hs). reflexivity.
Qed.

Lemma ToLower_split (s a b : string) :
  ToLower s = (a ++ b)%string ->
  exists a0 b0, s = (a0 ++ b0)%string /\ ToLower a0 = a /\ ToLower b0 = b.
Proof.
  revert s. induction a as [|c a IH]; intros s H.
  - exists "", s. auto.
  - destruct s as [|d s]; simpl in H; [discriminate H|].
    injection H as Hc Hs.
    destruct (IH s Hs) as (a0 & b0 & -> & <- & <-).
    exists (String d a0), b0. simpl. rewrite Hc. auto.
Qed.

Lemma trimLeft_of_space (pre s : string) :
  allSpace pre = true -> trimLeft (pre ++ s) = trimLeft s.
Proof.
  induction pre as [|c pre IH]; simpl; intro H; [reflexivity|].
  apply andb_prop in H. destruct H as [Hc Hp].
  rewrite Hc. apply IH, Hp.
Qed.

Lemma trimLeft_split (s : string) :
  exists pre, allSpace pre = true /\ s = (pre ++ trimLeft s)%string.
Proof.
  induction s as [|c s (pre & A & E)]; simpl.
  - exists "". auto.
  - destruct (isSpace c) eqn:Hc.
    + exists (String c pre). simpl. rewrite Hc, A, <- E. auto.
    + exists "". auto.
Qed.

Lemma trimRight_of_space (post : string) :
  allSpace post = true -> trimRight post = "".
Proof.
  induction post as [|c post IH]; simpl; intro H; [reflexivity|].
  apply andb_prop in H. destruct H as [Hc Hp].
  rewrite (IH Hp), Hc. reflexivity.
Qed.

Lemma trimRight_split (s : string) :
  exists post, allSpace post = true /\ s = (trimRight s ++ post)%string.
Proof.
  induction s as [|c s (post & A & E)]; simpl.
  - exists "". auto.
  - destruct (trimRight s) as [|k kept] eqn:T.
    + simpl in E. subst s.
      destruct (isSpace c) eqn:Hc.
      * exists (String c post). simpl. rewrite Hc, A. auto.
      * exists post. auto.
    + exists post. split; [exact A|]. simpl. rewrite E at 1. reflexivity.
Qed.

(** When the line read at the prompt is ASCII, the answer counts as a yes
    exactly when the line is a single [y] or [Y] with nothing but white
    space around it: the empty line, [yes], [n] and everything else
    cancel. *)
Theorem only_y_confirms (w : World) :
  allAscii (stdin_ReadString w) = true ->
  (confirmed w = true <->
   exists pre c post,
     stdin_ReadString w = (pre ++ String c post)%string /\
     allSpace pre = true /\ allSpace post = true /\
     (c = "y"%char \/ c = "Y"%char)).
Proof.
  intros _.
  unfold confirmed, TrimSpace. rewrite String.eqb_eq. split.
  - intro H.
    destruct (trimLeft_split (ToLower (stdin_ReadString w))) as (pre & Ap & Ep).
    destruct (trimRight_split (trimLeft (ToLower (stdin_ReadString w))))
      as (post & Aq & Eq).
    rewrite H in Eq. rewrite Eq in Ep.
    destruct (ToLower_split _ _ _ Ep) as (pre0 & rest0 & Es & Lp & Lr).
    destruct rest0 as [|c post0]; simpl in Lr; [discriminate Lr|].
    injection Lr as Lc Lq.
    exists pre0, c, post0. split; [exact Es|].
    split; [rewrite <- ToLower_allSpace, Lp; exact Ap|].
    split; [rewrite <- ToLower_allSpace, Lq; exact Aq|].
    apply lowerAscii_y, Lc.
  - intros (pre & c & post & -> & Ap & Aq & Hc).
    rewrite ToLower_append. simpl.
    rewrite (ToLower_of_space pre Ap), (ToLower_of_space post Aq).
    rewrite (proj2 (lowerAscii_y c) Hc).
    rewrite trimLeft_of_space by exact Ap.
    simpl. rewrite (trimRight_of_space post Aq). reflexivity.
Qed.

Lemma only_y_confirms_witness :
  allAscii (stdin_ReadString (Sample.world Sample.threeTweetArchive [] " Y  " Sample.ok))
    = true /\
  confirmed (Sample.world Sample.threeTweetArchive [] " Y  " Sample.ok) = true.
Proof.
  split; [reflexivity|].
  apply (only_y_confirms (Sample.world Sample.threeTweetArchive [] " Y  " Sample.ok)
           eq_refl).
  exists " ", "Y"%char, "  ". repeat split; auto.
Defined.

(** ** Instances *)

(** A delete request answered with 429: one failure, one delete call, the
    long pause and the short delay. *)
Lemma delete_call_outcome_witness :
  newEvents initState
    (deleteTweet (Sample.world Sample.threeTweetArchive [] "y" Sample.throttled) 1
                 Sample.tJan21 initState) =
  [Do DELETE (tweetURL "1001"); Print (MsgFailedToDelete "1001" 429);
   Print MsgRateLimitExceeded; Sleep (15 * Minute); Sleep (200 * Millisecond)].
Proof.
  destruct (delete_call_outcome
              (Sample.world Sample.threeTweetArchive [] "y" Sample.throttled)
              1 Sample.tJan21 initState) as (_ & _ & _ & Throttled & _).
  exact (Throttled eq_refl true eq_refl).
Defined.

(** The confirmed run over the archive of three tweets checks the two
    tweets its dry run lists, in that order. *)
Lemma dry_run_previews_the_real_run_witness :
  getCalls (trace (exec (runDelete Sample.parseTable Sample.unmarshalTable
                           Sample.pivotFirstSort
                           (setDryRun false (Sample.flags 2 0 true "oldest"))
                           (Sample.world Sample.threeTweetArchive [] "y" Sample.ok)))) =
  map (fun line => tweetURL (lineID line))
      (displayed (runDelete Sample.parseTable Sample.unmarshalTable
                    Sample.pivotFirstSort
                    (setDryRun true (Sample.flags 2 0 true "oldest"))
                    (Sample.world Sample.threeTweetArchive [] "y" Sample.ok))).
Proof.
  apply (dry_run_previews_the_real_run Sample.parseTable Sample.unmarshalTable
           Sample.pivotFirstSort (Sample.flags 2 0 true "oldest")
           (Sample.world Sample.threeTweetArchive [] "y" Sample.ok));
    [intro url; reflexivity | reflexivity].
Defined.

(** ** The selection against the archive, and the run against the answer *)

Lemma applyOffsetLimit_positive (lim off : Z)
    (tweets selection : list TwitterArchiveTweet) :
  lim > 0 ->
  applyOffsetLimit lim off tweets = Some selection ->
  selection = firstn (Z.to_nat lim) (skipn (Z.to_nat off) tweets).
Proof.
  intros L. unfold applyOffsetLimit.
  replace (lim >? 0) with true by (symmetry; apply Z.gtb_lt; lia).
  assert (forall l : list TwitterArchiveTweet,
            (if len l >? lim then Some (firstn (Z.to_nat lim) l) else Some l)
              = Some selection ->
            selection = firstn (Z.to_nat lim) l) as Cut.
  { intros l E. destruct (Z.gtb_spec (len l) lim) as [G|G].
    - injection E as <-. reflexivity.
    - injection E as <-. symmetry. apply firstn_all2. unfold len in G. lia. }
  destruct (Z.gtb_spec off 0) as [O|O].
  - destruct (Z.geb_spec off (len tweets)) as [G|G]; [discriminate|].
    apply Cut.
  - replace (Z.to_nat off) with 0%nat by lia. apply Cut.
Qed.

(** In [original] mode, and with any sort option other than [oldest] and
    [newest], the selection is a contiguous run of the records in the order
    in which the reader extracted them from the data files: with a
    positive limit the first [limit] records after the first [offset]
    records of the archive, otherwise the whole archive. *)
Theorem original_mode_keeps_archive_order
    (time_Parse : string -> option Time)
    (json_Unmarshal : string -> option (list TwitterArchiveTweet))
    (pdqsort : (TwitterArchiveTweet -> TwitterArchiveTweet -> bool) ->
               list TwitterArchiveTweet -> list TwitterArchiveTweet)
    (f : Flags) (w : World) (selection : list TwitterArchiveTweet) :
  sortOrder f <> "oldest" -> sortOrder f <> "newest" ->
  selectTweets time_Parse json_Unmarshal pdqsort f w = inr selection ->
  (exists before after,
     readTweets json_Unmarshal w (findTweetFiles w (archivePath f))
       = (before ++ selection ++ after)%list) /\
  (limit f > 0 ->
   selection =
     firstn (Z.to_nat (limit f))
       (skipn (Z.to_nat (offset f))
          (readTweets json_Unmarshal w (findTweetFiles w (archivePath f))))) /\
  (limit f <= 0 ->
   selection = readTweets json_Unmarshal w (findTweetFiles w (archivePath f))).
Proof.
  intros O N Sel.
  destruct (selectTweets_inr _ _ _ _ _ _ Sel) as (tweets & Load & Cut).
  destruct (loadTweets_inr _ _ _ _ Load) as (_ & _ & _ & Read & _).
  rewrite <- Read. clear Read Load Sel.
  assert (sortTweets time_Parse pdqsort (sortOrder f) tweets = tweets) as Same.
  { unfold sortTweets.
    destruct (String.eqb_spec (sortOrder f) "oldest"); [contradiction|].
    destruct (String.eqb_spec (sortOrder f) "newest"); [contradiction|].
    reflexivity. }
  rewrite Same in Cut.
  assert (limit f > 0 ->
          selection = firstn (Z.to_nat (limit f)) (skipn (Z.to_nat (offset f)) tweets))
    as Pos by (intro L; exact (applyOffsetLimit_positive _ _ _ _ L Cut)).
  assert (limit f <= 0 -> selection = tweets) as NonPos.
  { intro L. unfold applyOffsetLimit in Cut.
    replace (limit f >? 0) with false in Cut
      by (symmetry; rewrite Z.gtb_ltb; apply Z.ltb_ge; lia).
    injection Cut as <-. reflexivity. }
  split; [|split; assumption].
  destruct (Z.lt_ge_cases 0 (limit f)) as [L|L].
  - rewrite (Pos ltac:(lia)).
    exists (firstn (Z.to_nat (offset f)) tweets),
           (skipn (Z.to_nat (limit f)) (skipn (Z.to_nat (offset f)) tweets)).
    rewrite (firstn_skipn (Z.to_nat (limit f))), (firstn_skipn (Z.to_nat (offset f))).
    reflexivity.
  - rewrite (NonPos L). exists [], []. rewrite app_nil_r. reflexivity.
Qed.

Lemma original_mode_keeps_archive_order_witness :
  exists before after,
    readTweets Sample.unmarshalTable
      (Sample.world Sample.threeTweetArchive [] "y" Sample.ok)
      (findTweetFiles (Sample.world Sample.threeTweetArchive [] "y" Sample.ok) "archive")
    = (before ++ [Sample.tJun21; Sample.tJan20] ++ after)%list.
Proof.
  apply (original_mode_keeps_archive_order Sample.parseTable Sample.unmarshalTable
           Sample.pivotFirstSort (Sample.flags 2 1 true "original")
           (Sample.world Sample.threeTweetArchive [] "y" Sample.ok)
           [Sample.tJun21; Sample.tJan20]);
    [discriminate | discriminate | reflexivity].
Defined.

Lemma confirmed_y_line (w : World) :
  confirmed w = true <->
  exists pre c post,
    stdin_ReadString w = (pre ++ String c post)%string /\
    allSpace pre = true /\ allSpace post = true /\
    (c = "y"%char \/ c = "Y"%char).
Proof.
  unfold confirmed, TrimSpace. rewrite String.eqb_eq. split.
  - intro H.
    destruct (trimLeft_split (ToLower (stdin_ReadString w))) as (pre & Ap & Ep).
    destruct (trimRight_split (trimLeft (ToLower (stdin_ReadString w))))
      as (post & Aq & Eq).
    rewrite H in Eq. rewrite Eq in Ep.
    destruct (ToLower_split _ _ _ Ep) as (pre0 & rest0 & Es & Lp & Lr).
    destruct rest0 as [|c post0]; simpl in Lr; [discriminate Lr|].
    injection Lr as Lc Lq.
    exists pre0, c, post0. split; [exact Es|].
    split; [rewrite <- ToLower_allSpace, Lp; exact Ap|].
    split; [rewrite <- ToLower_allSpace, Lq; exact Aq|].
    apply lowerAscii_y, Lc.
  - intros (pre & c & post & -> & Ap & Aq & Hc).
    rewrite ToLower_append. simpl.
    rewrite (ToLower_of_space pre Ap), (ToLower_of_space post Aq).
    rewrite (proj2 (lowerAscii_y c) Hc).
    rewrite trimLeft_of_space by exact Ap.
    simpl. rewrite (trimRight_of_space post Aq). reflexivity.
Qed.

(** Nothing is sent and nothing is counted unless the user said yes.  When
    the line read at the prompt is ASCII, a run ends as a completed
    deletion exactly when dry-run is off, the line is a single [y] or [Y]
    with nothing but white space around it, and the reader and selector
    produced a selection; every other run leaves the counters at zero and
    the history empty.  A listing is shown only for a selection, and it is
    the listing of that selection. *)
Theorem nothing_happens_without_a_yes
    (time_Parse : string -> option Time)
    (json_Unmarshal : string -> option (list TwitterArchiveTweet))
    (pdqsort : (TwitterArchiveTweet -> TwitterArchiveTweet -> bool) ->
               list TwitterArchiveTweet -> list TwitterArchiveTweet)
    (f : Flags) (w : World) :
  allAscii (stdin_ReadString w) = true ->
  (exit (runDelete time_Parse json_Unmarshal pdqsort f w) = ExitCompleted <->
   dryRun f = false /\
   (exists pre c post,
      stdin_ReadString w = (pre ++ String c post)%string /\
      allSpace pre = true /\ allSpace post = true /\
      (c = "y"%char \/ c = "Y"%char)) /\
   exists selection,
     selectTweets time_Parse json_Unmarshal pdqsort f w = inr selection) /\
  (exit (runDelete time_Parse json_Unmarshal pdqsort f w) <> ExitCompleted ->
   exec (runDelete time_Parse json_Unmarshal pdqsort f w) = initState) /\
  (displayed (runDelete time_Parse json_Unmarshal pdqsort f w) <> [] ->
   exists selection,
     selectTweets time_Parse json_Unmarshal pdqsort f w = inr selection /\
     displayed (runDelete time_Parse json_Unmarshal pdqsort f w)
       = display time_Parse selection).
Proof.
  intros _. rewrite <- confirmed_y_line.
  unfold runDelete.
  destruct (selectTweets time_Parse json_Unmarshal pdqsort f w) as [e|sel] eqn:Sel.
  - simpl. split; [split|split].
    + intros ->. exfalso.
      exact (selectTweets_not_completed _ _ _ _ _ Sel).
    + intros (_ & _ & sel & E). discriminate E.
    + reflexivity.
    + intro N. contradiction.
  - destruct (dryRun f); simpl.
    + split; [split; [discriminate | intros (D & _); discriminate]|].
      split; [reflexivity|]. intros _. exists sel. auto.
    + destruct (confirmed w); simpl.
      * split; [split; [intros _; repeat split; exists sel; reflexivity | reflexivity]|].
        split; [intro N; contradiction|]. intros _. exists sel. auto.
      * split; [split; [discriminate | intros (_ & C & _); discriminate]|].
        split; [reflexivity|]. intros _. exists sel. auto.
Qed.

(** An answer of [n]: the run is cancelled, nothing is counted and nothing
    is sent. *)
Lemma nothing_happens_without_a_yes_witness :
  allAscii (stdin_ReadString (Sample.world Sample.threeTweetArchive [] "n" Sample.ok))
    = true /\
  exec (runDelete Sample.parseTable Sample.unmarshalTable Sample.pivotFirstSort
          (Sample.flags 2 0 false "oldest")
          (Sample.world Sample.threeTweetArchive [] "n" Sample.ok)) = initState.
Proof.
  split; [reflexivity|].
  apply (nothing_happens_without_a_yes Sample.parseTable Sample.unmarshalTable
           Sample.pivotFirstSort (Sample.flags 2 0 false "oldest")
           (Sample.world Sample.threeTweetArchive [] "n" Sample.ok) eq_refl).
  discriminate.
Defined.
